(** * axhandle: the MCP specification parser and its error utilities

    A shallow embedding of [src/parser/mcpSpecParser.ts] and
    [src/utils/errorUtils.ts].

    - JavaScript strings are [string]s; the numbers used as error codes are
      the non-negative integers among the doubles, as [N].
    - Values that cross the JSON boundary (the cache file) are [JsValue]s; a
      [JsValue] can also be a node array of the compiler, which a
      description holds when a JSDoc comment has inline tags.
    - Asynchronous, throwing code is written in a state-and-exception monad
      over a [World] (two files, a clock, the console).
    - The TypeScript compiler API is external: the syntax tree it returns is
      an inductive type carrying, for every node, the attributes the parser
      reads ([getText()], [questionToken], [typeArguments], JSDoc). *)

From Stdlib Require Import String Ascii List Bool Arith ZArith NArith Lia.
From Stdlib Require Import DecimalString DecimalPos DecimalN.
Import ListNotations.
Local Open Scope string_scope.
Local Open Scope list_scope.

Set Implicit Arguments.
Local Set Warnings "-register-all".

(* ===================================================================== *)
(** ** String primitives of the JavaScript runtime used by the source     *)
(* ===================================================================== *)

Module JsString.

(** The decimal digits of [n]. *)
Definition decimal (n : N) : string :=
  NilZero.string_of_uint (N.to_uint n).

(** The double nearest to the integer [x], ties going to the even
    significand of 53 bits. *)
Definition nearestDouble (x : N) : N :=
  let e := (N.log2 x - 52)%N in
  let q := N.shiftr x e in
  let r := (x - N.shiftl q e)%N in
  let half := N.shiftl 1 (e - 1) in
  if (e =? 0)%N then x
  else if (half <? r)%N || ((r =? half)%N && N.odd q)
       then N.shiftl (q + 1) e
       else N.shiftl q e.

Definition distance (a b : N) : N :=
  if (a <=? b)%N then (b - a)%N else (a - b)%N.

(** The integer with the fewest significant digits that denotes the double
    [n]: for 1, 2, ... up to 17 significant digits, the multiples of the
    power of ten just below and just above [n] are tried; of two that
    denote [n] the nearer is taken, the even one if they are as near. *)
Fixpoint shortestFrom (n : N) (digits tries k : nat) : N :=
  match tries with
  | O => n
  | S tries' =>
      let p := (10 ^ N.of_nat (digits - k))%N in
      let lo := (n / p * p)%N in
      let hi := (lo + p)%N in
      let okLo := (nearestDouble lo =? n)%N in
      let okHi := (nearestDouble hi =? n)%N in
      if okLo && okHi then
        if (distance lo n <? distance hi n)%N then lo
        else if (distance hi n <? distance lo n)%N then hi
        else if N.even (lo / p) then lo else hi
      else if okLo then lo
      else if okHi then hi
      else shortestFrom n digits tries' (S k)
  end.

Definition shortest (n : N) : N :=
  shortestFrom n (String.length (decimal n)) 17 1.

Fixpoint dropTrailingZeros (s : string) : string :=
  match s with
  | EmptyString => EmptyString
  | String c r =>
      match dropTrailingZeros r with
      | EmptyString =>
          if Ascii.eqb c "0"%char then EmptyString else String c EmptyString
      | r' => String c r'
      end
  end.

(** The form with an exponent: one digit, the other significant digits
    after a point if there are any, and the power of ten. *)
Definition exponentForm (v : N) : string :=
  let text := decimal v in
  let exponent := decimal (N.of_nat (String.length text - 1)) in
  match dropTrailingZeros text with
  | String c EmptyString => String c ("e+" ++ exponent)
  | String c r => String c ("." ++ r ++ "e+" ++ exponent)
  | EmptyString => text
  end.

(** [String(n)] for a number [n] that is a non-negative integer: the
    shortest digits that denote [n], padded with zeros below ten to the
    21, in the form with an exponent from there on.  Below two to the 53
    these are all the digits of [n]. *)
Definition ofNumber (n : N) : string :=
  let v := shortest n in
  if (v <? 10 ^ 21)%N then decimal v else exponentForm v.

Fixpoint replicate (n : nat) (c : ascii) : string :=
  match n with
  | O => EmptyString
  | S k => String c (replicate k c)
  end.

(** [s.padStart(targetLength, c)] for a one-character filler. *)
Definition padStart (targetLength : nat) (c : ascii) (s : string) : string :=
  replicate (targetLength - String.length s) c ++ s.

(** [s.endsWith(suffix)]. *)
Definition endsWith (s suffix : string) : bool :=
  (String.length suffix <=? String.length s)%nat &&
  String.eqb
    (substring (String.length s - String.length suffix)
               (String.length suffix) s)
    suffix.

(** The double-quote character (code 34). *)
Definition dquote : ascii := "034"%char.

Definition isQuote (c : ascii) : bool :=
  Ascii.eqb c "'"%char || Ascii.eqb c dquote.

(** [s.replace(re, empty)] where the global pattern [re] is the character
    class of the single and the double quote: all of them are removed. *)
Fixpoint stripQuotes (s : string) : string :=
  match s with
  | EmptyString => EmptyString
  | String c r => if isQuote c then stripQuotes r else String c (stripQuotes r)
  end.

(** [s.startsWith(p)], used to state facts about error codes. *)
Definition startsWith (s p : string) : bool := String.prefix p s.

End JsString.

(* ===================================================================== *)
(** ** JavaScript values, thrown values, structured errors               *)
(* ===================================================================== *)

(** An element of the node array that holds a JSDoc comment with inline
    tags: a piece of text, or an inline tag of one of the three kinds, with
    the name it links to, if any, and its text. *)
Inductive JSDocCommentNode : Type :=
| JSDocText (text : string)
| JSDocLink (name : option string) (text : string)
| JSDocLinkCode (name : option string) (text : string)
| JSDocLinkPlain (name : option string) (text : string).

(** The values the code under study handles.  Those of the first six forms
    can be stored in, and read back from, a JSON document; a number is kept
    as the text of its literal.  [JsNodes] is the node array the compiler
    builds for a JSDoc comment with inline tags; it is never empty. *)
Inductive JsValue : Type :=
| JsNull
| JsBool (b : bool)
| JsNumber (literal : string)
| JsString (s : string)
| JsArray (items : list JsValue)
| JsObject (props : list (string * JsValue))
| JsNodes (first : JSDocCommentNode) (rest : list JSDocCommentNode).

(** What the [comment] property of a JSDoc block holds, and so what a
    [description] holds at run time, where the cast to [string] of
    [getJSDocComment] does nothing: a string, or the node array of a
    comment with inline tags. *)
Inductive Description : Type :=
| Text (text : string)
| Nodes (first : JSDocCommentNode) (rest : list JSDocCommentNode).

(** An instance of the built-in [Error] class.  [errorCode] is the optional
    [code] property (Node's file-system errors carry one). *)
Record JsError : Type := mkJsError {
  errorMessage : string;
  errorCode : option string
}.

(** [new Error(message)]. *)
Definition newError (message : string) : JsError :=
  {| errorMessage := message; errorCode := None |}.

(** Modelled from the spec: the [AxeError] type of [src/types], which is not
    part of the sources: a plain object with a [code], a [message], optional
    [details] and an optional [cause] that is an [Error] or an [AxeError]. *)
Inductive AxeError : Type :=
| mkAxeError (code : string) (message : string)
             (details : option (list (string * JsValue)))
             (cause : option (JsError + AxeError)).

Definition code (e : AxeError) : string :=
  match e with mkAxeError c _ _ _ => c end.
Definition message (e : AxeError) : string :=
  match e with mkAxeError _ m _ _ => m end.
Definition details (e : AxeError) : option (list (string * JsValue)) :=
  match e with mkAxeError _ _ d _ => d end.
Definition cause (e : AxeError) : option (JsError + AxeError) :=
  match e with mkAxeError _ _ _ c => c end.

(** What a [throw] statement can throw, as far as the code under study
    tells values apart: an [Error] instance, a plain-object [AxeError], or
    any other value, kept by its string form [String(value)]. *)
Inductive Thrown : Type :=
| ThrownError (e : JsError)
| ThrownAxe (e : AxeError)
| ThrownOther (stringForm : string).

(** [error instanceof Error]. *)
Definition instanceofError (t : Thrown) : bool :=
  match t with ThrownError _ => true | _ => false end.

(** ['code' in error]. *)
Definition hasCodeProperty (t : Thrown) : bool :=
  match t with
  | ThrownError e => match errorCode e with Some _ => true | None => false end
  | ThrownAxe _ => true
  | ThrownOther _ => false
  end.

(** [String(error)]; a plain object prints as [[object Object]]. *)
Definition toStringThrown (t : Thrown) : string :=
  match t with
  | ThrownError e =>
      if String.eqb (errorMessage e) "" then "Error"
      else "Error: " ++ errorMessage e
  | ThrownAxe _ => "[object Object]"
  | ThrownOther s => s
  end.

(** The result of running a piece of code: it returns or it throws. *)
Inductive Outcome (A : Type) : Type :=
| Returns (a : A)
| Throws (t : Thrown).
Arguments Returns {A} a.
Arguments Throws {A} t.

(** Code that reads and writes a state of type [S] and may throw.  The state
    reached before a [throw] is kept, as in JavaScript. *)
Definition Eff (S A : Type) : Type := S -> Outcome A * S.

Definition ret {S A} (a : A) : Eff S A := fun s => (Returns a, s).

Definition throw {S A} (t : Thrown) : Eff S A := fun s => (Throws t, s).

Definition bind {S A B} (m : Eff S A) (k : A -> Eff S B) : Eff S B :=
  fun s =>
    match m s with
    | (Returns a, s') => k a s'
    | (Throws t, s') => (Throws t, s')
    end.

(** [try { body } catch (error) { handler(error) }]. *)
Definition tryCatch {S A} (body : Eff S A) (handler : Thrown -> Eff S A)
  : Eff S A :=
  fun s =>
    match body s with
    | (Returns a, s') => (Returns a, s')
    | (Throws t, s') => handler t s'
    end.

(** A pure computation that may throw, run inside [Eff]. *)
Definition lift {S A} (o : Outcome A) : Eff S A := fun s => (o, s).

Declare Scope eff_scope.
Delimit Scope eff_scope with eff.
Notation "x <- m ;; k" := (bind m (fun x => k))
  (at level 61, m at next level, right associativity) : eff_scope.
Notation "m ;;; k" := (bind m (fun _ => k))
  (at level 61, right associativity) : eff_scope.

(* ===================================================================== *)
(** ** The syntax tree returned by the TypeScript compiler API           *)
(* ===================================================================== *)

Module Ts.

(** A type node.  [text] is what [getText()] returns for the node; for a
    type reference, [typeName] is [typeName.getText()]. *)
Inductive TypeNode : Type :=
| ArrayTypeNode (text : string) (elementType : TypeNode)
| TypeReferenceNode (text : string) (typeName : string)
                    (typeArguments : option (list TypeNode))
| UnionTypeNode (text : string) (types : list TypeNode)
| OtherTypeNode (text : string).

Definition getText (n : TypeNode) : string :=
  match n with
  | ArrayTypeNode t _ => t
  | TypeReferenceNode t _ _ => t
  | UnionTypeNode t _ => t
  | OtherTypeNode t => t
  end.

(** An element of [ts.getJSDocCommentsAndTags(node)]: a JSDoc block with
    its [comment] property, or a tag. *)
Inductive JSDocItem : Type :=
| JSDoc (comment : option Description)
| JSDocTag.

Inductive QuestionToken : Type := QuestionTokenNode.

(** A member of an interface declaration.  [nameText] is
    [member.name.getText()]. *)
Inductive TypeElement : Type :=
| PropertySignature (nameText : string)
                    (questionToken : option QuestionToken)
                    (type : option TypeNode)
                    (jsDoc : list JSDocItem)
| OtherTypeElement.

Inductive Expression : Type :=
| StringLiteral (text : string)
| OtherExpression.

(** [identifierName] is [Some text] when [declaration.name] is an
    identifier. *)
Record VariableDeclaration : Type := mkVariableDeclaration {
  identifierName : option string;
  initializer : option Expression
}.

(** A child of the source file, as visited by [ts.forEachChild]. *)
Inductive Node : Type :=
| VariableStatement (declarations : list VariableDeclaration)
| InterfaceDeclaration (name : string) (members : list TypeElement)
                       (jsDoc : list JSDocItem)
| OtherNode.

Definition SourceFile : Type := list Node.

(** A syntax error the parser of the compiler recovered from. *)
Record Diagnostic : Type := mkDiagnostic {
  diagnosticCode : N;
  messageText : string
}.

(** What [ts.createSourceFile] returns: the children [ts.forEachChild]
    visits, and [parseDiagnostics], the syntax errors met on the way.  The
    parser of the compiler recovers from every syntax error, so there is
    always a tree. *)
Record ParsedFile : Type := mkParsedFile {
  children : SourceFile;
  parseDiagnostics : list Diagnostic
}.

End Ts.
Import Ts.

(* ===================================================================== *)
(** ** The specification model                                           *)
(* ===================================================================== *)

(** Modelled from the spec: the types [McpOperation], [McpField], [McpType],
    [McpCapability] and [McpSpecification] of [src/types], which is not part
    of the sources; the fields are those of section 3 of the specification,
    in the order of the object literals of the parser.  A description is
    declared a [string]; it is a [Description] here, as a description built
    by the parser is whatever the JSDoc comment was. *)
Record McpOperation : Type := mkMcpOperation {
  op_name : string;
  op_description : Description;
  op_inputType : string;
  op_outputType : string;
  op_required : bool
}.

Record McpField : Type := mkMcpField {
  field_name : string;
  field_type : string;
  field_required : bool;
  field_repeated : bool;
  field_description : Description
}.

Record McpType : Type := mkMcpType {
  type_name : string;
  type_description : Description;
  type_fields : list McpField
}.

Record McpCapability : Type := mkMcpCapability {
  cap_name : string;
  cap_description : Description;
  cap_required : bool
}.

Record McpSpecification : Type := mkMcpSpecification {
  version : string;
  operations : list McpOperation;
  types : list McpType;
  capabilities : list McpCapability
}.

(* ===================================================================== *)
(** ** mcpSpecParser.ts: the syntax-tree walk                            *)
(* ===================================================================== *)

(** [a || b] where [a] is a comment or [undefined] and [b] a string: the
    empty string is falsy, a node array, as every object, is truthy. *)
Definition orElse (a : option Description) (b : string) : Description :=
  match a with
  | Some (Text s) => if String.eqb s "" then Text b else Text s
  | Some (Nodes first rest) => Nodes first rest
  | None => Text b
  end.

(** [member.questionToken === undefined]. *)
Definition isUndefined {A} (x : option A) : bool :=
  match x with None => true | Some _ => false end.

Definition getJSDocComment (jsDocComments : list JSDocItem)
  : option Description :=
  match jsDocComments with
  | JSDoc comment :: _ => comment
  | _ => None
  end.

Definition isRepeatedType (typeNode : option TypeNode) : bool :=
  match typeNode with
  | None => false
  | Some (ArrayTypeNode _ _) => true
  | Some (TypeReferenceNode _ typeName (Some (_ :: _))) =>
      String.eqb typeName "Array"
  | Some _ => false
  end.

(** [extractFieldType] on a node that is present.  [regular] is the part of
    the body after the array case: a type reference gives its name, a union
    the type of its first alternative ([types[0]] is [undefined] for an
    empty union, for which [extractFieldType] answers [any]), any other node
    its text. *)
Fixpoint extractFieldTypeNode (typeNode : TypeNode) : string :=
  let regular :=
    match typeNode with
    | TypeReferenceNode _ typeName _ => typeName
    | UnionTypeNode _ types =>
        match types with
        | first :: _ => extractFieldTypeNode first
        | [] => "any"
        end
    | _ => getText typeNode
    end in
  if isRepeatedType (Some typeNode) then
    match typeNode with
    | ArrayTypeNode _ elementType => extractFieldTypeNode elementType
    | TypeReferenceNode _ typeName (Some (arg0 :: _)) =>
        if String.eqb typeName "Array" then extractFieldTypeNode arg0
        else regular
    | _ => regular
    end
  else regular.

Definition extractFieldType (typeNode : option TypeNode) : string :=
  match typeNode with
  | None => "any"
  | Some n => extractFieldTypeNode n
  end.

Definition extractInputType (typeNode : TypeNode) : string :=
  match typeNode with
  | TypeReferenceNode _ _ (Some (arg0 :: _)) => getText arg0
  | _ => "any"
  end.

Definition extractOutputType (typeNode : TypeNode) : string :=
  match typeNode with
  | TypeReferenceNode _ _ (Some (_ :: arg1 :: _)) => getText arg1
  | _ => "any"
  end.

(** The body of the [forEach] callback of [parseOperationsInterface]: one
    member, and the operations pushed so far. *)
Definition parseOperationMember (operations : list McpOperation)
    (member : TypeElement) : list McpOperation :=
  match member with
  | PropertySignature nameText questionToken
                      (Some (TypeReferenceNode _ _ _ as type)) jsDoc =>
      let operationName := JsString.stripQuotes nameText in
      let description := getJSDocComment jsDoc in
      let operation :=
        {| op_name := operationName;
           op_description :=
             orElse description ("MCP " ++ operationName ++ " operation");
           op_inputType := extractInputType type;
           op_outputType := extractOutputType type;
           op_required := isUndefined questionToken |} in
      operations ++ [operation]
  | _ => operations
  end.

Definition parseOperationsInterface (members : list TypeElement)
    (operations : list McpOperation) : list McpOperation :=
  fold_left parseOperationMember members operations.

(** The body of the [forEach] callback of [parseTypeInterface]. *)
Definition parseFieldMember (fields : list McpField) (member : TypeElement)
  : list McpField :=
  match member with
  | PropertySignature nameText questionToken type jsDoc =>
      let fieldName := JsString.stripQuotes nameText in
      let fieldDescription := getJSDocComment jsDoc in
      let isRepeated := isRepeatedType type in
      let field :=
        {| field_name := fieldName;
           field_type := extractFieldType type;
           field_required := isUndefined questionToken;
           field_repeated := isRepeated;
           field_description :=
             orElse fieldDescription (fieldName ++ " field") |} in
      fields ++ [field]
  | OtherTypeElement => fields
  end.

(** [None] is the [undefined] returned for a type without fields. *)
Definition parseTypeInterface (name : string) (members : list TypeElement)
    (jsDoc : list JSDocItem) : option McpType :=
  let typeName := name in
  let description := getJSDocComment jsDoc in
  let fields := fold_left parseFieldMember members [] in
  if (List.length fields =? 0)%nat then None
  else Some {| type_name := typeName;
               type_description := orElse description ("MCP " ++ typeName);
               type_fields := fields |}.

(** The body of the [forEach] callback of [parseCapabilitiesInterface]. *)
Definition parseCapabilityMember (capabilities : list McpCapability)
    (member : TypeElement) : list McpCapability :=
  match member with
  | PropertySignature nameText questionToken _ jsDoc =>
      let capabilityName := JsString.stripQuotes nameText in
      let description := getJSDocComment jsDoc in
      let capability :=
        {| cap_name := capabilityName;
           cap_description :=
             orElse description ("MCP " ++ capabilityName ++ " capability");
           cap_required := isUndefined questionToken |} in
      capabilities ++ [capability]
  | OtherTypeElement => capabilities
  end.

Definition parseCapabilitiesInterface (members : list TypeElement)
    (capabilities : list McpCapability) : list McpCapability :=
  fold_left parseCapabilityMember members capabilities.

(** The [forEach] over the declarations of a variable statement: a string
    constant named [MCP_VERSION] overwrites the version. *)
Definition visitDeclaration (version : string) (d : VariableDeclaration)
  : string :=
  match identifierName d, initializer d with
  | Some name, Some (StringLiteral text) =>
      if String.eqb name "MCP_VERSION" then text else version
  | _, _ => version
  end.

(** The callback passed to [ts.forEachChild] in [parseFromSource], as a
    function from the specification built so far to the next one. *)
Definition visitNode (spec : McpSpecification) (node : Node)
  : McpSpecification :=
  match node with
  | VariableStatement declarations =>
      {| version := fold_left visitDeclaration declarations (version spec);
         operations := operations spec;
         types := types spec;
         capabilities := capabilities spec |}
  | InterfaceDeclaration interfaceName members jsDoc =>
      let operations1 :=
        if String.eqb interfaceName "McpOperations"
        then parseOperationsInterface members (operations spec)
        else operations spec in
      let types1 :=
        if JsString.endsWith interfaceName "Type"
           && negb (String.eqb interfaceName "McpType")
        then match parseTypeInterface interfaceName members jsDoc with
             | Some mcpType => types spec ++ [mcpType]
             | None => types spec
             end
        else types spec in
      let capabilities1 :=
        if String.eqb interfaceName "McpCapabilities"
        then parseCapabilitiesInterface members (capabilities spec)
        else capabilities spec in
      {| version := version spec;
         operations := operations1;
         types := types1;
         capabilities := capabilities1 |}
  | OtherNode => spec
  end.

(** The specification [parseFromSource] starts from. *)
Definition initialSpecification : McpSpecification :=
  {| version := "1.0.0"; operations := []; types := []; capabilities := [] |}.

(** The specification built by the walk over the children of the source
    file, before validation. *)
Definition walkSourceFile (sourceFile : SourceFile) : McpSpecification :=
  fold_left visitNode sourceFile initialSpecification.

(* ===================================================================== *)
(** ** JSON.stringify(value, null, 2) and JSON.parse                     *)
(* ===================================================================== *)

(** The cache file is JSON text.  [stringify] prints a value the way
    [JSON.stringify(value, null, 2)] does; [parse] reads any JSON text.
    Strings are sequences of bytes: an escape above 127 is stored in its
    UTF-8 form.  The keys of an object come in the order JavaScript lists
    them: array indices first, in increasing order, then the other keys in
    the order of the text; a key that is repeated keeps its place and takes
    its last value. *)
Module Json.

Definition backslash : ascii := "092"%char.
Definition newline : ascii := "010"%char.
Definition dquote : ascii := JsString.dquote.

Definition isWhitespace (c : ascii) : bool :=
  Ascii.eqb c " "%char || Ascii.eqb c "009"%char
  || Ascii.eqb c "010"%char || Ascii.eqb c "013"%char.

Fixpoint skipWhitespace (s : string) : string :=
  match s with
  | String c r => if isWhitespace c then skipWhitespace r else s
  | EmptyString => s
  end.

(** *** Printing *)

Definition hexDigit (n : nat) : ascii :=
  match n with
  | 0 => "0" | 1 => "1" | 2 => "2" | 3 => "3" | 4 => "4" | 5 => "5"
  | 6 => "6" | 7 => "7" | 8 => "8" | 9 => "9" | 10 => "a" | 11 => "b"
  | 12 => "c" | 13 => "d" | 14 => "e" | _ => "f"
  end%char.

(** One character inside a quoted string. *)
Definition quoteChar (c : ascii) : string :=
  if Ascii.eqb c dquote then String backslash (String dquote "")
  else if Ascii.eqb c backslash then String backslash (String backslash "")
  else if Ascii.eqb c "008"%char then String backslash "b"
  else if Ascii.eqb c "009"%char then String backslash "t"
  else if Ascii.eqb c "010"%char then String backslash "n"
  else if Ascii.eqb c "012"%char then String backslash "f"
  else if Ascii.eqb c "013"%char then String backslash "r"
  else if (nat_of_ascii c <? 32)%nat then
    String backslash
      (String "u" (String "0" (String "0"
         (String (hexDigit (nat_of_ascii c / 16))
            (String (hexDigit (nat_of_ascii c mod 16)) "")))))
  else String c "".

Fixpoint quoteChars (s : string) : string :=
  match s with
  | EmptyString => EmptyString
  | String c r => quoteChar c ++ quoteChars r
  end.

Definition quote (s : string) : string :=
  String dquote (quoteChars s ++ String dquote "").

Definition spaces (n : nat) : string := JsString.replicate n " "%char.

Definition lineBreak (indent : nat) : string :=
  String newline (spaces indent).

(** Whether [value] holds a node array of the compiler.  The nodes of a
    tree created with [setParentNodes] point to their parents, so such a
    value is circular. *)
Fixpoint hasNodes (value : JsValue) : bool :=
  match value with
  | JsNodes _ _ => true
  | JsArray items => existsb hasNodes items
  | JsObject props => existsb (fun p => hasNodes (snd p)) props
  | _ => false
  end.

(** The text of [value] printed at depth [indent] (a number of spaces), for
    a [value] without node arrays; there is no text for a node array, on
    which [JSON.stringify] throws (see [JSON_stringify]). *)
Fixpoint stringifyAt (indent : nat) (value : JsValue) : string :=
  match value with
  | JsNull => "null"
  | JsBool true => "true"
  | JsBool false => "false"
  | JsNumber literal => literal
  | JsString s => quote s
  | JsArray [] => "[]"
  | JsArray items =>
      "[" ++ lineBreak (indent + 2)
        ++ String.concat ("," ++ lineBreak (indent + 2))
             (map (stringifyAt (indent + 2)) items)
        ++ lineBreak indent ++ "]"
  | JsObject [] => "{}"
  | JsObject props =>
      "{" ++ lineBreak (indent + 2)
        ++ String.concat ("," ++ lineBreak (indent + 2))
             (map (fun p => (quote (fst p) ++ ": "
                               ++ stringifyAt (indent + 2) (snd p))%string)
                  props)
        ++ lineBreak indent ++ "}"
  | JsNodes _ _ => EmptyString
  end.

Definition stringify (value : JsValue) : string := stringifyAt 0 value.

(** *** Reading *)

Definition hexValue (c : ascii) : option nat :=
  let n := nat_of_ascii c in
  if (48 <=? n)%nat && (n <=? 57)%nat then Some (n - 48)
  else if (97 <=? n)%nat && (n <=? 102)%nat then Some (n - 87)
  else if (65 <=? n)%nat && (n <=? 70)%nat then Some (n - 55)
  else None.

(** The UTF-8 form of a code unit below 65536. *)
Definition utf8 (n : nat) : string :=
  if (n <? 128)%nat then String (ascii_of_nat n) ""
  else if (n <? 2048)%nat then
    String (ascii_of_nat (192 + n / 64))
      (String (ascii_of_nat (128 + n mod 64)) "")
  else
    String (ascii_of_nat (224 + n / 4096))
      (String (ascii_of_nat (128 + (n / 64) mod 64))
         (String (ascii_of_nat (128 + n mod 64)) "")).

Definition simpleEscape (c : ascii) : option ascii :=
  if Ascii.eqb c dquote then Some dquote
  else if Ascii.eqb c backslash then Some backslash
  else if Ascii.eqb c "/"%char then Some "/"%char
  else if Ascii.eqb c "b"%char then Some "008"%char
  else if Ascii.eqb c "t"%char then Some "009"%char
  else if Ascii.eqb c "n"%char then Some "010"%char
  else if Ascii.eqb c "f"%char then Some "012"%char
  else if Ascii.eqb c "r"%char then Some "013"%char
  else None.

Definition consResult (c : string) (r : option (string * string))
  : option (string * string) :=
  match r with
  | Some (str, rest) => Some ((c ++ str)%string, rest)
  | None => None
  end.

(** The characters of a string after its opening quote, up to and including
    the closing quote; the result is the string and the text that follows. *)
Fixpoint parseStringChars (s : string) : option (string * string) :=
  match s with
  | EmptyString => None
  | String c r =>
      if Ascii.eqb c dquote then Some (EmptyString, r)
      else if Ascii.eqb c backslash then
        match r with
        | String e r1 =>
            match simpleEscape e with
            | Some ch => consResult (String ch "") (parseStringChars r1)
            | None =>
                if Ascii.eqb e "u"%char then
                  match r1 with
                  | String h1 (String h2 (String h3 (String h4 r2))) =>
                      match hexValue h1, hexValue h2, hexValue h3,
                            hexValue h4 with
                      | Some a, Some b, Some c', Some d =>
                          consResult
                            (utf8 (a * 4096 + b * 256 + c' * 16 + d))
                            (parseStringChars r2)
                      | _, _, _, _ => None
                      end
                  | _ => None
                  end
                else None
            end
        | EmptyString => None
        end
      else if (nat_of_ascii c <? 32)%nat then None
      else consResult (String c "") (parseStringChars r)
  end.

Fixpoint stripPrefix (p s : string) : option string :=
  match p with
  | EmptyString => Some s
  | String a p' =>
      match s with
      | String b s' => if Ascii.eqb a b then stripPrefix p' s' else None
      | EmptyString => None
      end
  end.

Definition isDigit (c : ascii) : bool :=
  (48 <=? nat_of_ascii c)%nat && (nat_of_ascii c <=? 57)%nat.

Definition isNumberChar (c : ascii) : bool :=
  isDigit c || Ascii.eqb c "-"%char || Ascii.eqb c "+"%char
  || Ascii.eqb c "."%char || Ascii.eqb c "e"%char || Ascii.eqb c "E"%char.

(** The longest run of number characters at the head of [s], and the rest. *)
Fixpoint spanNumber (s : string) : string * string :=
  match s with
  | String c r =>
      if isNumberChar c then
        let (n, rest) := spanNumber r in (String c n, rest)
      else (EmptyString, s)
  | EmptyString => (EmptyString, EmptyString)
  end.

Fixpoint dropDigits (s : string) : string :=
  match s with
  | String c r => if isDigit c then dropDigits r else s
  | EmptyString => s
  end.

(** One digit at least, then the rest. *)
Definition digits1 (s : string) : option string :=
  match s with
  | String c r => if isDigit c then Some (dropDigits r) else None
  | EmptyString => None
  end.

Definition exponentPart (s : string) : bool :=
  match s with
  | EmptyString => true
  | String c r =>
      if Ascii.eqb c "e"%char || Ascii.eqb c "E"%char then
        let r' :=
          match r with
          | String sign r1 =>
              if Ascii.eqb sign "+"%char || Ascii.eqb sign "-"%char
              then r1 else r
          | EmptyString => r
          end in
        match digits1 r' with
        | Some EmptyString => true
        | _ => false
        end
      else false
  end.

Definition fractionPart (s : string) : bool :=
  match s with
  | String c r =>
      if Ascii.eqb c "."%char then
        match digits1 r with
        | Some r' => exponentPart r'
        | None => false
        end
      else exponentPart s
  | EmptyString => true
  end.

(** The grammar of a JSON number: an optional minus sign, an integer part
    without a leading zero, an optional fraction, an optional exponent. *)
Definition isNumberLiteral (s : string) : bool :=
  let s1 :=
    match s with
    | String c r => if Ascii.eqb c "-"%char then r else s
    | EmptyString => s
    end in
  match s1 with
  | String c r =>
      if Ascii.eqb c "0"%char then fractionPart r
      else if isDigit c then fractionPart (dropDigits r)
      else false
  | EmptyString => false
  end.

(** [Some i] when the key [k] is the array index [i]: the decimal digits,
    without a leading zero, of an integer below two to the 32 minus one. *)
Definition arrayIndex (k : string) : option N :=
  match NilEmpty.uint_of_string k with
  | Some digits =>
      let i := N.of_uint digits in
      if String.eqb (JsString.decimal i) k && (i <? 4294967295)%N
      then Some i else None
  | None => None
  end.

(** Whether a new key [k] is listed before the key [k'] of an object. *)
Definition listedBefore (k k' : string) : bool :=
  match arrayIndex k, arrayIndex k' with
  | Some i, Some j => (i <? j)%N
  | Some _, None => true
  | None, _ => false
  end.

(** [object[k] = v] on the properties of an object, in the order of
    [Object.keys]: a key that is there keeps its place, a new array index
    goes among the array indices, any other new key goes last. *)
Fixpoint setProp (k : string) (v : JsValue) (props : list (string * JsValue))
  : list (string * JsValue) :=
  match props with
  | [] => [(k, v)]
  | (k', v') :: rest =>
      if String.eqb k' k then (k', v) :: rest
      else if listedBefore k k' then (k, v) :: props
      else (k', v') :: setProp k v rest
  end.

Definition objectOfMembers (members : list (string * JsValue)) : JsValue :=
  JsObject (fold_left (fun props m => setProp (fst m) (snd m) props)
                      members []).

(** A recursive-descent reader; [fuel] bounds the nesting of calls, and the
    length of the text is always enough (see [parse]). *)
Fixpoint parseValue (fuel : nat) (s : string) : option (JsValue * string) :=
  match fuel with
  | O => None
  | S fuel' =>
      match skipWhitespace s with
      | EmptyString => None
      | String c r as s' =>
          if Ascii.eqb c "{"%char then
            match skipWhitespace r with
            | String c1 r1 =>
                if Ascii.eqb c1 "}"%char then Some (JsObject [], r1)
                else
                  match parseMembers fuel' r with
                  | Some (members, rest) =>
                      Some (objectOfMembers members, rest)
                  | None => None
                  end
            | EmptyString => None
            end
          else if Ascii.eqb c "["%char then
            match skipWhitespace r with
            | String c1 r1 =>
                if Ascii.eqb c1 "]"%char then Some (JsArray [], r1)
                else
                  match parseElements fuel' r with
                  | Some (items, rest) => Some (JsArray items, rest)
                  | None => None
                  end
            | EmptyString => None
            end
          else if Ascii.eqb c dquote then
            match parseStringChars r with
            | Some (str, rest) => Some (JsString str, rest)
            | None => None
            end
          else
            match stripPrefix "null" s', stripPrefix "true" s',
                  stripPrefix "false" s' with
            | Some rest, _, _ => Some (JsNull, rest)
            | _, Some rest, _ => Some (JsBool true, rest)
            | _, _, Some rest => Some (JsBool false, rest)
            | None, None, None =>
                let (literal, rest) := spanNumber s' in
                if isNumberLiteral literal then Some (JsNumber literal, rest)
                else None
            end
      end
  end

with parseElements (fuel : nat) (s : string)
  : option (list JsValue * string) :=
  match fuel with
  | O => None
  | S fuel' =>
      match parseValue fuel' s with
      | Some (v, r) =>
          match skipWhitespace r with
          | String c r1 =>
              if Ascii.eqb c ","%char then
                match parseElements fuel' r1 with
                | Some (vs, rest) => Some (v :: vs, rest)
                | None => None
                end
              else if Ascii.eqb c "]"%char then Some ([v], r1)
              else None
          | EmptyString => None
          end
      | None => None
      end
  end

with parseMembers (fuel : nat) (s : string)
  : option (list (string * JsValue) * string) :=
  match fuel with
  | O => None
  | S fuel' =>
      match skipWhitespace s with
      | String q r =>
          if Ascii.eqb q dquote then
            match parseStringChars r with
            | Some (k, r1) =>
                match skipWhitespace r1 with
                | String colon r2 =>
                    if Ascii.eqb colon ":"%char then
                      match parseValue fuel' r2 with
                      | Some (v, r3) =>
                          match skipWhitespace r3 with
                          | String c r4 =>
                              if Ascii.eqb c ","%char then
                                match parseMembers fuel' r4 with
                                | Some (ms, rest) => Some ((k, v) :: ms, rest)
                                | None => None
                                end
                              else if Ascii.eqb c "}"%char
                                   then Some ([(k, v)], r4)
                              else None
                          | EmptyString => None
                          end
                      | None => None
                      end
                    else None
                | EmptyString => None
                end
            | None => None
            end
          else None
      | EmptyString => None
      end
  end.

(** [JSON.parse(text)]: [None] stands for the [SyntaxError] it throws. *)
Definition parse (text : string) : option JsValue :=
  match parseValue (String.length text) text with
  | Some (v, rest) =>
      match skipWhitespace rest with
      | EmptyString => Some v
      | String _ _ => None
      end
  | None => None
  end.

Definition digitValue (c : ascii) : N := N.of_nat (nat_of_ascii c - 48).

(** The digits of [s] as a number, after [acc]. *)
Fixpoint readDigitsFrom (s : string) (acc : N) : N :=
  match s with
  | String c r =>
      if isDigit c then readDigitsFrom r (10 * acc + digitValue c) else acc
  | EmptyString => acc
  end.

(** The integer and fraction digits of a literal without its sign, as one
    integer [m] and the power of ten [scale] that the fraction digits
    stand for; what is left is the exponent part. *)
Fixpoint readMantissa (s : string) (m : N) (scale : Z) (fraction : bool)
  : N * Z * string :=
  match s with
  | String c r =>
      if isDigit c then
        readMantissa r (10 * m + digitValue c)
                     (if fraction then scale - 1 else scale)%Z fraction
      else if Ascii.eqb c "."%char then readMantissa r m scale true
      else (m, scale, s)
  | EmptyString => (m, scale, s)
  end.

Definition readExponent (s : string) : Z :=
  match s with
  | String _ (String sign r) =>
      if Ascii.eqb sign "-"%char then (- Z.of_N (readDigitsFrom r 0))%Z
      else if Ascii.eqb sign "+"%char then Z.of_N (readDigitsFrom r 0)
      else Z.of_N (readDigitsFrom (String sign r) 0)
  | _ => 0%Z
  end.

(** Whether the number a literal denotes is zero as a double: its digits are
    all zeros, or its value [m * 10 ^ e] is at most two to the -1075, half
    the least positive double, and so rounds to zero. *)
Definition isZeroLiteral (literal : string) : bool :=
  let unsigned :=
    match literal with
    | String c r => if Ascii.eqb c "-"%char then r else literal
    | EmptyString => literal
    end in
  let '(m, scale, rest) := readMantissa unsigned 0 0%Z false in
  let e := (scale + readExponent rest)%Z in
  if (m =? 0)%N then true
  else if (0 <=? e)%Z then false
  else (m * 2 ^ 1075 <=? 10 ^ Z.to_N (- e))%N.

End Json.

(** [if (value)]: the truth value JavaScript gives to [value]. *)
Definition toBoolean (value : JsValue) : bool :=
  match value with
  | JsNull => false
  | JsBool b => b
  | JsNumber literal => negb (Json.isZeroLiteral literal)
  | JsString s => negb (String.eqb s "")
  | JsArray _ => true
  | JsObject _ => true
  | JsNodes _ _ => true
  end.

(* ===================================================================== *)
(** ** errorUtils.ts                                                     *)
(* ===================================================================== *)

(** The [details] of an error: an object literal, key by key. *)
Definition Details : Type := list (string * JsValue).

(** [createError]: the code is the prefix, a dash, the category and the
    numeric code left-padded with zeros to three digits.  [prefix] and
    [category] are the string forms of the enumeration members. *)
Definition createError (prefix category : string) (code : N)
    (message : string) (details : option Details)
    (cause : option (JsError + AxeError)) : AxeError :=
  mkAxeError
    (prefix ++ "-" ++ category
       ++ JsString.padStart 3 "0"%char (JsString.ofNumber code))
    message details cause.

(** A JavaScript function: what a call does, and its [name] property. *)
Record JsFunction (S Args R : Type) : Type := mkJsFunction {
  call : Args -> Eff S R;
  name : string
}.

(** [withErrorHandling(fn, errorCreator)], applied to [args]. *)
Definition withErrorHandling {S Args R} (fn : JsFunction S Args R)
    (errorCreator : N -> string -> option Details -> option JsError
                    -> AxeError)
  : Args -> Eff S R :=
  fun args =>
    tryCatch (call fn args)
      (fun error =>
         if instanceofError error && hasCodeProperty error then
           throw error
         else
           throw (ThrownAxe
                    (errorCreator 999%N "An unexpected error occurred"
                       (Some [("function", JsString (name fn))])
                       (Some match error with
                             | ThrownError e => e
                             | _ => newError (toStringThrown error)
                             end)))).

(* ===================================================================== *)
(** ** mcpSpecParser.ts: errors and validation                           *)
(* ===================================================================== *)

Section Parser.

Set Default Proof Using "Type".

(** The string forms of [ErrorPrefix.AXE] and [AxeErrorCategory.PARSER],
    two enumeration members declared in [src/types], and the directory
    [schemas/mcp-spec] resolved against [__dirname]. *)
Variable ErrorPrefix_AXE : string.
Variable AxeErrorCategory_PARSER : string.
Variable mcpSpecDir : string.

Definition MCP_SPEC_PATH : string := mcpSpecDir ++ "/schema.ts".

Definition MCP_SPEC_CACHE_PATH : string := mcpSpecDir ++ "/schema.json".

(** The parser's own [createParserError]. *)
Definition createParserError (code : N) (message : string)
    (details : option Details) (cause : option (JsError + AxeError))
  : AxeError :=
  mkAxeError
    (ErrorPrefix_AXE ++ "-" ++ AxeErrorCategory_PARSER
       ++ JsString.padStart 3 "0"%char (JsString.ofNumber code))
    message details cause.

Definition requiredOperations : list string :=
  ["Get"; "List"; "Create"; "Update"; "Delete"].

(** [spec.operations.some(op => op.name === requiredOp)]. *)
Definition hasOperation (spec : McpSpecification) (requiredOp : string)
  : bool :=
  existsb (fun op => String.eqb (op_name op) requiredOp) (operations spec).

(** The [for ... of] loop over the required operations: the first one that
    is missing throws. *)
Fixpoint checkRequiredOperations (spec : McpSpecification)
    (required : list string) : Outcome unit :=
  match required with
  | [] => Returns tt
  | requiredOp :: rest =>
      if negb (hasOperation spec requiredOp) then
        Throws (ThrownAxe
                  (createParserError 4
                     ("MCP specification is missing required operation: "
                        ++ requiredOp)
                     (Some [("path", JsString MCP_SPEC_PATH)]) None))
      else checkRequiredOperations spec rest
  end.

Definition validateSpecification (spec : McpSpecification) : Outcome unit :=
  if (List.length (operations spec) =? 0)%nat then
    Throws (ThrownAxe
              (createParserError 2
                 "MCP specification does not define any operations"
                 (Some [("path", JsString MCP_SPEC_PATH)]) None))
  else if (List.length (types spec) =? 0)%nat then
    Throws (ThrownAxe
              (createParserError 3
                 "MCP specification does not define any types"
                 (Some [("path", JsString MCP_SPEC_PATH)]) None))
  else
    match checkRequiredOperations spec requiredOperations with
    | Throws t => Throws t
    | Returns _ =>
        if (List.length (capabilities spec) =? 0)%nat then
          Throws (ThrownAxe
                    (createParserError 5
                       "MCP specification does not define any capabilities"
                       (Some [("path", JsString MCP_SPEC_PATH)]) None))
        else Returns tt
    end.

(* ===================================================================== *)
(** ** The file system, the clock and the console                        *)
(* ===================================================================== *)

(** A file: its modification time in milliseconds, its text, and the error
    [readFile] rejects with when the file cannot be read. *)
Record File : Type := mkFile {
  mtime : Z;
  content : string;
  readError : option JsError
}.

(** The part of the outside world the parser touches.  [mkdirFailure] is
    the error [fs.mkdir] rejects with, if it does; [writeFailure] is the
    error [fs.writeFile] rejects with when the file cannot be opened for
    writing (a write that fails half-way, leaving a part of the text, is
    outside the model); [now] is the time the next file written is stamped
    with, and [delays] the times that pass, from one write to the next,
    after it; [console] collects the calls of [console.warn]. *)
Record World : Type := mkWorld {
  files : string -> option File;
  mkdirFailure : option JsError;
  writeFailure : option JsError;
  now : Z;
  delays : nat -> N;
  console : list (string * Thrown)
}.

(** The error of a system call on a path that does not exist. *)
Definition enoent (syscall path : string) : JsError :=
  {| errorMessage :=
       "ENOENT: no such file or directory, " ++ syscall ++ " '" ++ path ++ "'";
     errorCode := Some "ENOENT" |}.

Definition fs_access (path : string) : Eff World unit :=
  fun w =>
    match files w path with
    | Some _ => (Returns tt, w)
    | None => (Throws (ThrownError (enoent "access" path)), w)
    end.

(** [(await fs.stat(path)).mtime]. *)
Definition fs_stat (path : string) : Eff World Z :=
  fun w =>
    match files w path with
    | Some f => (Returns (mtime f), w)
    | None => (Throws (ThrownError (enoent "stat" path)), w)
    end.

Definition fs_readFile (path : string) : Eff World string :=
  fun w =>
    match files w path with
    | Some f =>
        match readError f with
        | None => (Returns (content f), w)
        | Some e => (Throws (ThrownError e), w)
        end
    | None => (Throws (ThrownError (enoent "open" path)), w)
    end.

(** [fs.mkdir(dir, { recursive: true })]. *)
Definition fs_mkdir (dir : string) : Eff World unit :=
  fun w =>
    match mkdirFailure w with
    | Some e => (Throws (ThrownError e), w)
    | None => (Returns tt, w)
    end.

Definition writtenFile (old : option File) (time : Z) (text : string) : File :=
  {| mtime := time;
     content := text;
     readError := match old with Some f => readError f | None => None end |}.

(** [fs.writeFile(path, text)]: the file is stamped with the time of the
    write, and the clock moves on. *)
Definition fs_writeFile (path text : string) : Eff World unit :=
  fun w =>
    match writeFailure w with
    | Some e => (Throws (ThrownError e), w)
    | None =>
        (Returns tt,
         {| files := fun p => if String.eqb p path
                              then Some (writtenFile (files w path) (now w) text)
                              else files w p;
            mkdirFailure := mkdirFailure w;
            writeFailure := writeFailure w;
            now := now w + Z.of_N (delays w 0);
            delays := fun k => delays w (S k);
            console := console w |})
    end.

Definition console_warn (text : string) (error : Thrown) : Eff World unit :=
  fun w =>
    (Returns tt,
     {| files := files w;
        mkdirFailure := mkdirFailure w;
        writeFailure := writeFailure w;
        now := now w;
        delays := delays w;
        console := console w ++ [(text, error)] |}).

(** The [SyntaxError] of [JSON.parse]. *)
Definition syntaxError : JsError := newError "Unexpected token in JSON".

Definition JSON_parse (text : string) : Eff World JsValue :=
  match Json.parse text with
  | Some v => ret v
  | None => throw (ThrownError syntaxError)
  end.

(** The [TypeError] of [JSON.stringify] on a circular structure; its
    message goes on to describe the cycle, which is left out here. *)
Definition circularError : JsError :=
  newError "Converting circular structure to JSON".

(** [JSON.stringify(value, null, 2)]: it throws on a value that holds a
    node array, which is circular. *)
Definition JSON_stringify (value : JsValue) : Eff World string :=
  if Json.hasNodes value then throw (ThrownError circularError)
  else ret (Json.stringify value).

(* ===================================================================== *)
(** ** The specification as a JavaScript object                          *)
(* ===================================================================== *)

(** A description as a value: the string, or the node array. *)
Definition descriptionValue (d : Description) : JsValue :=
  match d with
  | Text s => JsString s
  | Nodes first rest => JsNodes first rest
  end.

Definition operationValue (op : McpOperation) : JsValue :=
  JsObject [("name", JsString (op_name op));
            ("description", descriptionValue (op_description op));
            ("inputType", JsString (op_inputType op));
            ("outputType", JsString (op_outputType op));
            ("required", JsBool (op_required op))].

Definition fieldValue (f : McpField) : JsValue :=
  JsObject [("name", JsString (field_name f));
            ("type", JsString (field_type f));
            ("required", JsBool (field_required f));
            ("repeated", JsBool (field_repeated f));
            ("description", descriptionValue (field_description f))].

Definition typeValue (t : McpType) : JsValue :=
  JsObject [("name", JsString (type_name t));
            ("description", descriptionValue (type_description t));
            ("fields", JsArray (map fieldValue (type_fields t)))].

Definition capabilityValue (c : McpCapability) : JsValue :=
  JsObject [("name", JsString (cap_name c));
            ("description", descriptionValue (cap_description c));
            ("required", JsBool (cap_required c))].

(** The object a specification is at run time: its properties in the order
    of the object literal of [parseFromSource]. *)
Definition specificationValue (spec : McpSpecification) : JsValue :=
  JsObject [("version", JsString (version spec));
            ("operations", JsArray (map operationValue (operations spec)));
            ("types", JsArray (map typeValue (types spec)));
            ("capabilities",
             JsArray (map capabilityValue (capabilities spec)))].

(* ===================================================================== *)
(** ** mcpSpecParser.ts: cache and entry point                           *)
(* ===================================================================== *)

(** [ts.createSourceFile(fileName, sourceText, ts.ScriptTarget.Latest,
    true)], the parser of the TypeScript compiler. *)
Variable createSourceFile : string -> string -> ParsedFile.

Local Open Scope eff_scope.

(** [loadFromCache]; [JsNull] is the [null] of a cache miss. *)
Definition loadFromCache : Eff World JsValue :=
  tryCatch
    (cacheExists <-
       tryCatch (fs_access MCP_SPEC_CACHE_PATH ;;; ret true)
                (fun _ => ret false) ;;
     if negb cacheExists then ret JsNull
     else
       cacheStats <- fs_stat MCP_SPEC_CACHE_PATH ;;
       sourceStats <- fs_stat MCP_SPEC_PATH ;;
       if (cacheStats <=? sourceStats)%Z then ret JsNull
       else
         cacheContent <- fs_readFile MCP_SPEC_CACHE_PATH ;;
         cachedSpec <- JSON_parse cacheContent ;;
         ret cachedSpec)
    (fun _ => ret JsNull).

(** [cacheSpecification(spec)]; the directory of the cache file is
    [mcpSpecDir]. *)
Definition cacheSpecification (spec : McpSpecification) : Eff World unit :=
  tryCatch
    (let cacheDir := mcpSpecDir in
     fs_mkdir cacheDir ;;;
     text <- JSON_stringify (specificationValue spec) ;;
     fs_writeFile MCP_SPEC_CACHE_PATH text)
    (fun error => console_warn "Failed to cache MCP specification:" error).

Definition parseFromSource : Eff World McpSpecification :=
  sourceText <- fs_readFile MCP_SPEC_PATH ;;
  let fileName := MCP_SPEC_PATH in
  let sourceFile := createSourceFile fileName sourceText in
  let spec := walkSourceFile (children sourceFile) in
  lift (validateSpecification spec) ;;;
  ret spec.

(** The [catch] clause of [parseSpecification]. *)
Definition parseSpecificationCatch {A} (error : Thrown) : Eff World A :=
  match error with
  | ThrownError e =>
      throw (ThrownAxe
               (createParserError 1 "Failed to parse MCP specification"
                  (Some [("path", JsString MCP_SPEC_PATH)])
                  (Some (inl e))))
  | _ => throw error
  end.

(** [parseSpecification]; the value returned is the cached value or the
    object of the specification just parsed. *)
Definition parseSpecification : Eff World JsValue :=
  tryCatch
    (cachedSpec <- loadFromCache ;;
     if toBoolean cachedSpec then ret cachedSpec
     else
       parsedSpec <- parseFromSource ;;
       cacheSpecification parsedSpec ;;;
       ret (specificationValue parsedSpec))
    parseSpecificationCatch.

(* ===================================================================== *)
(** ** Facts about the syntax-tree walk                                  *)
(* ===================================================================== *)


Lemma orElse_absent (a : option Description) (dflt : string) :
  a = None \/ a = Some (Text "") -> orElse a dflt = Text dflt.
Proof. intros [-> | ->]; reflexivity. Qed.


(** A [forEach] that pushes onto an array only appends to what was there. *)
Lemma fold_left_append_only {A B} (step : list A -> B -> list A)
    (Hstep : forall acc b, step acc b = acc ++ step [] b)
    (l : list B) (acc : list A) :
  fold_left step l acc = acc ++ fold_left step l [].
Proof.
  revert acc. induction l as [| b l IH]; intros acc; simpl.
  - now rewrite app_nil_r.
  - rewrite IH. rewrite (IH (step [] b)). rewrite (Hstep acc b).
    now rewrite app_assoc.
Qed.

Lemma parseOperationMember_append operations member :
  parseOperationMember operations member
  = operations ++ parseOperationMember [] member.
Proof.
  destruct member as [n q [[| | |]|] d|]; simpl;
    try reflexivity; now rewrite ?app_nil_r.
Qed.

Lemma parseFieldMember_append fields member :
  parseFieldMember fields member = fields ++ parseFieldMember [] member.
Proof. destruct member; simpl; [reflexivity | now rewrite app_nil_r]. Qed.

(** What one element pushes is in the array when the [forEach] is over. *)
Lemma fold_left_push_In {A B} (step : list A -> B -> list A)
    (Hstep : forall acc b, step acc b = acc ++ step [] b)
    (l : list B) (acc : list A) (b : B) (x : A) :
  In b l -> In x (step [] b) -> In x (fold_left step l acc).
Proof.
  revert acc. induction l as [| m ms IH]; intros acc Hin Hx; [easy |].
  simpl. destruct Hin as [-> | Hin].
  - rewrite fold_left_append_only by exact Hstep.
    apply in_or_app. left. rewrite Hstep.
    apply in_or_app. now right.
  - now apply IH.
Qed.


Lemma parseTypeInterface_In name members jsDoc member f :
  In member members ->
  In f (parseFieldMember [] member) ->
  exists t,
    parseTypeInterface name members jsDoc = Some t /\ In f (type_fields t).
Proof.
  intros Hin Hf. unfold parseTypeInterface.
  pose proof (@fold_left_push_In _ _ parseFieldMember parseFieldMember_append
                members [] member f Hin Hf) as H.
  destruct (fold_left parseFieldMember members []) as [| g gs];
    [contradiction |].
  simpl. eexists. split; [reflexivity | exact H].
Qed.


(** The member types that make a field repeated: [T[]], and [Array<...>]
    with at least one type argument. *)
Inductive arrayShaped : option TypeNode -> Prop :=
| arrayShaped_array text elementType :
    arrayShaped (Some (ArrayTypeNode text elementType))
| arrayShaped_Array text first rest :
    arrayShaped (Some (TypeReferenceNode text "Array" (Some (first :: rest)))).

Lemma isRepeatedType_true_iff type :
  isRepeatedType type = true <-> arrayShaped type.
Proof.
  split.
  - destruct type as [[t e | t n [[| a l] |] | t l | t] |]; simpl;
      try discriminate.
    + intros _. constructor.
    + intros H. apply String.eqb_eq in H. subst n. constructor.
  - intros H. destruct H; reflexivity.
Qed.

(** From the specification: the name a member type resolves to.  An array
    [T[]] and a collection [Array<T, ...>] resolve to what the element type
    [T] resolves to; any other type reference resolves to the name it
    refers to; a union resolves to what its first alternative resolves to
    ([any] if it had none); every other type resolves to its text. *)
Inductive resolvesTo : TypeNode -> string -> Prop :=
| resolves_array text elementType name :
    resolvesTo elementType name ->
    resolvesTo (ArrayTypeNode text elementType) name
| resolves_collection text first rest name :
    resolvesTo first name ->
    resolvesTo (TypeReferenceNode text "Array" (Some (first :: rest))) name
| resolves_reference text typeName typeArguments :
    ~ arrayShaped (Some (TypeReferenceNode text typeName typeArguments)) ->
    resolvesTo (TypeReferenceNode text typeName typeArguments) typeName
| resolves_union text first rest name :
    resolvesTo first name ->
    resolvesTo (UnionTypeNode text (first :: rest)) name
| resolves_empty_union text :
    resolvesTo (UnionTypeNode text []) "any"
| resolves_other text :
    resolvesTo (OtherTypeNode text) text.

(** [extractFieldType] gives the name the type resolves to. *)
Lemma extractFieldTypeNode_resolves :
  forall typeNode, resolvesTo typeNode (extractFieldTypeNode typeNode).
Proof.
  fix IH 1. intros [t e | t n args | t alternatives | t].
  - cbn. apply resolves_array. apply IH.
  - destruct args as [[| first rest] |].
    + cbn. apply resolves_reference. intros H. inversion H.
    + cbn. destruct (String.eqb_spec n "Array") as [-> | Hne].
      * apply resolves_collection. apply IH.
      * apply resolves_reference. intros H. inversion H. congruence.
    + cbn. apply resolves_reference. intros H. inversion H.
  - destruct alternatives as [| first rest]; cbn.
    + apply resolves_empty_union.
    + apply resolves_union. apply IH.
  - cbn. apply resolves_other.
Qed.

(** A type resolves to one name only. *)
Lemma resolvesTo_extractFieldTypeNode typeNode name :
  resolvesTo typeNode name -> extractFieldTypeNode typeNode = name.
Proof.
  induction 1 as [t e name _ IH | t first rest name _ IH | t n args Hshape
                  | t first rest name _ IH | t | t]; cbn.
  - exact IH.
  - exact IH.
  - destruct args as [[| first rest] |]; try reflexivity.
    destruct (String.eqb_spec n "Array") as [-> | Hne]; [| reflexivity].
    exfalso. apply Hshape. constructor.
  - exact IH.
  - reflexivity.
  - reflexivity.
Qed.

(** The equations of [extractFieldType] on an array, a collection and a
    union. *)
Lemma extractFieldType_array text elementType :
  extractFieldType (Some (ArrayTypeNode text elementType))
  = extractFieldTypeNode elementType.
Proof. reflexivity. Qed.

Lemma extractFieldType_collection text first rest :
  extractFieldType (Some (TypeReferenceNode text "Array" (Some (first :: rest))))
  = extractFieldTypeNode first.
Proof. reflexivity. Qed.

Lemma extractFieldType_union text first rest :
  extractFieldType (Some (UnionTypeNode text (first :: rest)))
  = extractFieldTypeNode first.
Proof. reflexivity. Qed.

(** C6. The field of a member is repeated exactly when the type of the
    member is an array type or [Array] with at least one type argument; its
    type is then the name the element type, or the first type argument,
    resolves to, and no other: the text of a keyword, the name of a type
    reference, and so on, never the text of the collection.  A member of
    any other shape is not repeated; without a type annotation its type is
    [any]. *)
Theorem repeated_field :
  forall fields nameText questionToken type jsDoc,
    exists f,
      parseFieldMember fields
        (PropertySignature nameText questionToken type jsDoc)
      = fields ++ [f]
      /\ (field_repeated f = true <-> arrayShaped type)
      /\ (forall text elementType,
            type = Some (ArrayTypeNode text elementType) ->
            field_repeated f = true
            /\ resolvesTo elementType (field_type f)
            /\ (forall name, resolvesTo elementType name ->
                             field_type f = name))
      /\ (forall text first rest,
            type = Some (TypeReferenceNode text "Array" (Some (first :: rest))) ->
            field_repeated f = true
            /\ resolvesTo first (field_type f)
            /\ (forall name, resolvesTo first name -> field_type f = name))
      /\ (forall text element,
            type = Some (ArrayTypeNode text (OtherTypeNode element))
            \/ (exists rest,
                   type = Some (TypeReferenceNode text "Array"
                                  (Some (OtherTypeNode element :: rest)))) ->
            field_type f = element)
      /\ (forall text elementText typeName typeArguments,
            let element :=
              TypeReferenceNode elementText typeName typeArguments in
            ~ arrayShaped (Some element) ->
            type = Some (ArrayTypeNode text element)
            \/ (exists rest,
                   type = Some (TypeReferenceNode text "Array"
                                  (Some (element :: rest)))) ->
            field_type f = typeName)
      /\ (type = None -> field_repeated f = false /\ field_type f = "any")
      /\ (~ arrayShaped type -> field_repeated f = false).
Proof.
  intros fields nameText questionToken type jsDoc.
  eexists. split; [reflexivity |]. cbn [field_repeated field_type].
  split; [apply isRepeatedType_true_iff |].
  split; [| split; [| split; [| split; [| split]]]].
  - intros text elementType ->. split; [reflexivity |].
    rewrite extractFieldType_array. split.
    + apply extractFieldTypeNode_resolves.
    + intros name Hname. now apply resolvesTo_extractFieldTypeNode.
  - intros text first rest ->. split; [reflexivity |].
    rewrite extractFieldType_collection. split.
    + apply extractFieldTypeNode_resolves.
    + intros name Hname. now apply resolvesTo_extractFieldTypeNode.
  - intros text element [-> | [rest ->]]; reflexivity.
  - intros text elementText typeName typeArguments Hshape
           [-> | [rest ->]];
      rewrite ?extractFieldType_array, ?extractFieldType_collection;
      apply resolvesTo_extractFieldTypeNode; now apply resolves_reference.
  - intros ->. split; reflexivity.
  - intros Hshape.
    destruct (isRepeatedType type) eqn:E; [| reflexivity].
    exfalso. apply Hshape. now apply isRepeatedType_true_iff.
Qed.

(** C4. The field of a member whose type is a union has, for its type, the
    name the first alternative of the union resolves to, and no other: the
    text of a keyword, the name of a type reference, and so on.  The other
    alternatives play no part, the field is not repeated, the walk is a
    total function, and a type interface with such a member is never
    dropped: it yields a type that has this field. *)
Theorem union_field_first_alternative :
  forall fields nameText questionToken text first rest jsDoc,
    exists f,
      parseFieldMember fields
        (PropertySignature nameText questionToken
           (Some (UnionTypeNode text (first :: rest))) jsDoc)
      = fields ++ [f]
      /\ resolvesTo first (field_type f)
      /\ (forall name, resolvesTo first name -> field_type f = name)
      /\ (forall keyword, first = OtherTypeNode keyword ->
                          field_type f = keyword)
      /\ (forall referenceText typeName typeArguments,
            first = TypeReferenceNode referenceText typeName typeArguments ->
            ~ arrayShaped (Some first) ->
            field_type f = typeName)
      /\ field_repeated f = false
      /\ (forall text' rest',
            parseFieldMember fields
              (PropertySignature nameText questionToken
                 (Some (UnionTypeNode text' (first :: rest'))) jsDoc)
            = fields ++ [f])
      /\ (forall name members interfaceDoc,
            In (PropertySignature nameText questionToken
                  (Some (UnionTypeNode text (first :: rest))) jsDoc) members ->
            exists t,
              parseTypeInterface name members interfaceDoc = Some t
              /\ In f (type_fields t)).
Proof.
  intros. eexists. split; [reflexivity |]. cbn [field_repeated field_type].
  rewrite extractFieldType_union.
  split; [apply extractFieldTypeNode_resolves |].
  split; [intros name Hname; now apply resolvesTo_extractFieldTypeNode |].
  split; [intros keyword ->; reflexivity |].
  split.
  { intros referenceText typeName typeArguments -> Hshape.
    apply resolvesTo_extractFieldTypeNode. now apply resolves_reference. }
  split; [reflexivity |].
  split; [reflexivity |].
  intros name members interfaceDoc Hin.
  eapply parseTypeInterface_In; [exact Hin |].
  simpl. left. reflexivity.
Qed.

(* ===================================================================== *)
(** ** Facts about validation                                            *)
(* ===================================================================== *)

(** What [validateSpecification] throws: the parser error [n] with the
    given message, the path of the schema as details, and no cause. *)
Definition validationError (n : N) (text : string) : Outcome unit :=
  Throws (ThrownAxe
            (createParserError n text
               (Some [("path", JsString MCP_SPEC_PATH)]) None)).

(** The required operations, except [r], are among the operations. *)
Definition missesOnly (spec : McpSpecification) (r : string) : Prop :=
  In r requiredOperations
  /\ hasOperation spec r = false
  /\ forall x, In x requiredOperations -> x <> r -> hasOperation spec x = true.

Lemma length_eqb_0 {A} (l : list A) :
  (List.length l =? 0)%nat = match l with [] => true | _ => false end.
Proof. destruct l; reflexivity. Qed.

Lemma checkRequiredOperations_first_missing spec before r after :
  (forall x, In x before -> hasOperation spec x = true) ->
  hasOperation spec r = false ->
  checkRequiredOperations spec (before ++ r :: after)
  = validationError 4
      ("MCP specification is missing required operation: " ++ r).
Proof.
  intros Hbefore Hr. induction before as [| b before IH]; simpl.
  - rewrite Hr. reflexivity.
  - rewrite (Hbefore b) by now left. simpl.
    apply IH. intros x Hx. apply Hbefore. now right.
Qed.

Lemma checkRequiredOperations_all_present spec required :
  (forall x, In x required -> hasOperation spec x = true) ->
  checkRequiredOperations spec required = Returns tt.
Proof.
  intros H. induction required as [| r required IH]; simpl; [reflexivity |].
  rewrite (H r) by now left. simpl. apply IH.
  intros x Hx. apply H. now right.
Qed.

Lemma append_inj_l (p a b : string) : (p ++ a = p ++ b)%string -> a = b.
Proof.
  induction p as [| c p IH]; simpl; intros H; [exact H |].
  injection H as H. now apply IH.
Qed.

Lemma code_createParserError n text d c :
  code (createParserError n text d c)
  = (ErrorPrefix_AXE ++ "-" ++ AxeErrorCategory_PARSER
       ++ JsString.padStart 3 "0"%char (JsString.ofNumber n))%string.
Proof. reflexivity. Qed.

Lemma parser_codes_differ (a b : string) :
  a <> b ->
  (ErrorPrefix_AXE ++ String "-" (AxeErrorCategory_PARSER ++ a))%string
  <> (ErrorPrefix_AXE ++ String "-" (AxeErrorCategory_PARSER ++ b))%string.
Proof.
  intros Hne H. apply Hne.
  apply append_inj_l in H. injection H as H.
  now apply append_inj_l in H.
Qed.

Lemma missesOnly_split spec r :
  missesOnly spec r ->
  exists before after,
    requiredOperations = before ++ r :: after
    /\ forall x, In x before -> hasOperation spec x = true.
Proof.
  intros (Hin & _ & Hothers).
  apply in_split in Hin. destruct Hin as (before & after & Heq).
  exists before, after. split; [exact Heq |].
  intros x Hx. apply Hothers.
  - rewrite Heq. apply in_or_app. now left.
  - intros ->.
    assert (Hnd : NoDup requiredOperations).
    { unfold requiredOperations.
      repeat (constructor;
              [simpl; intros Hf;
               repeat (destruct Hf as [Hf | Hf]; [discriminate Hf |]);
               exact Hf |]).
      constructor. }
    rewrite Heq in Hnd. apply NoDup_remove_2 in Hnd.
    apply Hnd. apply in_or_app. now left.
Qed.

(** C1 (as amended). Validation runs four checks in order and stops at the
    first that fails: no operation (parser error 2), no type (3), a required
    operation missing (4, naming the first one missing in the order Get,
    List, Create, Update, Delete), no capability (5); the four codes are
    distinct and a specification passing all four is accepted.  For a
    specification with at least one type that misses exactly one required
    operation, the error is number 4 and names that operation. *)
Theorem validation_checks_in_order :
  forall spec,
    (operations spec = [] ->
     validateSpecification spec
     = validationError 2 "MCP specification does not define any operations")
    /\ (operations spec <> [] -> types spec = [] ->
        validateSpecification spec
        = validationError 3 "MCP specification does not define any types")
    /\ (forall before r after,
          operations spec <> [] -> types spec <> [] ->
          requiredOperations = before ++ r :: after ->
          (forall x, In x before -> hasOperation spec x = true) ->
          hasOperation spec r = false ->
          validateSpecification spec
          = validationError 4
              ("MCP specification is missing required operation: " ++ r))
    /\ (operations spec <> [] -> types spec <> [] ->
        (forall x, In x requiredOperations -> hasOperation spec x = true) ->
        capabilities spec = [] ->
        validateSpecification spec
        = validationError 5
            "MCP specification does not define any capabilities")
    /\ (operations spec <> [] -> types spec <> [] ->
        (forall x, In x requiredOperations -> hasOperation spec x = true) ->
        capabilities spec <> [] ->
        validateSpecification spec = Returns tt)
    /\ (forall t2 t3 t4 t5 d c,
          NoDup (map code [createParserError 2 t2 d c;
                           createParserError 3 t3 d c;
                           createParserError 4 t4 d c;
                           createParserError 5 t5 d c]))
    /\ (forall r,
          types spec <> [] -> missesOnly spec r ->
          validateSpecification spec
          = validationError 4
              ("MCP specification is missing required operation: " ++ r)).
Proof.
  intros spec. unfold validateSpecification. rewrite !length_eqb_0.
  split; [| split; [| split; [| split; [| split; [| split]]]]].
  - intros ->. reflexivity.
  - intros Hops ->. destruct (operations spec); [contradiction | reflexivity].
  - intros before r after Hops Htypes Heq Hbefore Hr.
    destruct (operations spec) eqn:Eo; [contradiction |].
    destruct (types spec); [contradiction |].
    rewrite Heq.
    rewrite (@checkRequiredOperations_first_missing spec before r after);
      [reflexivity | exact Hbefore | exact Hr].
  - intros Hops Htypes Hall ->.
    destruct (operations spec) eqn:Eo; [contradiction |].
    destruct (types spec); [contradiction |].
    rewrite checkRequiredOperations_all_present; [reflexivity | exact Hall].
  - intros Hops Htypes Hall Hcaps.
    destruct (operations spec) eqn:Eo; [contradiction |].
    destruct (types spec); [contradiction |].
    rewrite checkRequiredOperations_all_present by exact Hall.
    destruct (capabilities spec); [contradiction | reflexivity].
  - intros t2 t3 t4 t5 d c. simpl.
    repeat (constructor;
            [simpl; intros H;
             repeat (destruct H as [H | H];
                     [revert H; apply parser_codes_differ;
                      vm_compute; discriminate |]);
             exact H |]).
    constructor.
  - intros r Htypes Hmiss.
    destruct (missesOnly_split Hmiss) as (before & after & Heq & Hbefore).
    destruct Hmiss as (Hin & Hr & Hothers).
    assert (Hops : operations spec <> []).
    { intros Eo. unfold requiredOperations in Hin.
      assert (Hx : exists x, In x requiredOperations /\ x <> r).
      { destruct (String.eqb_spec r "Get") as [-> | Hne].
        - exists "List". split; [right; left; reflexivity | discriminate].
        - exists "Get". split; [left; reflexivity |].
          intros Heq'. apply Hne. now symmetry. }
      destruct Hx as (x & Hx & Hxr).
      specialize (Hothers x Hx Hxr). unfold hasOperation in Hothers.
      rewrite Eo in Hothers. discriminate. }
    destruct (operations spec) eqn:Eo; [contradiction |].
    destruct (types spec); [contradiction |].
    rewrite Heq.
    rewrite (@checkRequiredOperations_first_missing spec before r after);
      [reflexivity | exact Hbefore | exact Hr].
Qed.

(* ===================================================================== *)
(** ** Facts about withErrorHandling                                     *)
(* ===================================================================== *)

(** The cause handed to the error creator: the thrown [Error] itself, or a
    new [Error] whose message is the string form of what was thrown. *)
Definition causeOfThrown (t : Thrown) : JsError :=
  match t with
  | ThrownError e => e
  | _ => newError (toStringThrown t)
  end.

(** C10. The wrapper returns what the function returns; it rethrows, as it
    is, a thrown [Error] instance that has a [code] property; for anything
    else thrown it throws the error made by the error creator from 999, the
    fixed message, the name of the function and the cause: the thrown
    [Error], or a new [Error] made from the string form of the thrown
    value.  A plain-object [AxeError] is not an [Error] instance, so it is
    wrapped, with the cause [new Error("[object Object]")]. *)
Theorem withErrorHandling_cases :
  forall (S Args R : Type) (fn : JsFunction S Args R)
         (errorCreator : N -> string -> option Details -> option JsError
                         -> AxeError)
         (args : Args) (s : S),
    let wrapped t :=
      ThrownAxe (errorCreator 999%N "An unexpected error occurred"
                   (Some [("function", JsString (name fn))])
                   (Some (causeOfThrown t))) in
    (forall r s', call fn args s = (Returns r, s') ->
                  withErrorHandling fn errorCreator args s = (Returns r, s'))
    /\ (forall e c s',
          call fn args s = (Throws (ThrownError e), s') ->
          errorCode e = Some c ->
          withErrorHandling fn errorCreator args s
          = (Throws (ThrownError e), s'))
    /\ (forall t s',
          call fn args s = (Throws t, s') ->
          instanceofError t && hasCodeProperty t = false ->
          withErrorHandling fn errorCreator args s
          = (Throws (wrapped t), s'))
    /\ (forall a s',
          call fn args s = (Throws (ThrownAxe a), s') ->
          withErrorHandling fn errorCreator args s
          = (Throws (wrapped (ThrownAxe a)), s')
          /\ causeOfThrown (ThrownAxe a) = newError "[object Object]").
Proof.
  intros S Args R fn errorCreator args s wrapped.
  unfold withErrorHandling, tryCatch.
  split; [| split; [| split]].
  - intros r s' ->. reflexivity.
  - intros e c s' -> Hc. simpl. rewrite Hc. reflexivity.
  - intros t s' -> Ht. rewrite Ht. unfold wrapped, causeOfThrown, throw.
    destruct t; reflexivity.
  - intros a s' ->. split; reflexivity.
Qed.

(* ===================================================================== *)
(** ** Facts about JSON: reading back what was printed                   *)
(* ===================================================================== *)

Lemma string_append_assoc (a b c : string) :
  ((a ++ b) ++ c = a ++ (b ++ c))%string.
Proof. induction a as [| x a IH]; simpl; [reflexivity | now rewrite IH]. Qed.

Lemma string_append_nil_r (a : string) : (a ++ "")%string = a.
Proof. induction a as [| x a IH]; simpl; [reflexivity | now rewrite IH]. Qed.

Lemma string_length_append (a b : string) :
  String.length (a ++ b) = String.length a + String.length b.
Proof. induction a as [| x a IH]; simpl; [reflexivity | now rewrite IH]. Qed.

(** Induction on values, with the hypothesis for the items of an array and
    for the values of the properties of an object. *)
Lemma JsValue_nested_ind (P : JsValue -> Prop) :
  P JsNull ->
  (forall b, P (JsBool b)) ->
  (forall literal, P (JsNumber literal)) ->
  (forall s, P (JsString s)) ->
  (forall items, Forall P items -> P (JsArray items)) ->
  (forall props, Forall (fun p => P (snd p)) props -> P (JsObject props)) ->
  (forall first rest, P (JsNodes first rest)) ->
  forall v, P v.
Proof.
  intros Hnull Hbool Hnum Hstr Harr Hobj Hnodes.
  fix IH 1. intros [| b | literal | s | items | props | first rest].
  - exact Hnull.
  - apply Hbool.
  - apply Hnum.
  - apply Hstr.
  - apply Harr. induction items as [| x xs IHxs]; constructor.
    + apply IH.
    + exact IHxs.
  - apply Hobj. induction props as [| [k x] xs IHxs]; constructor.
    + apply IH.
    + exact IHxs.
  - apply Hnodes.
Qed.

(** The values that are read back as they were printed: no number (a number
    is printed in its canonical form, which the literal need not be), no
    node array, and no object with a repeated key or with a key that is an
    array index. *)
Fixpoint Plain (v : JsValue) : Prop :=
  match v with
  | JsNull | JsBool _ | JsString _ => True
  | JsNumber _ | JsNodes _ _ => False
  | JsArray items =>
      (fix all (l : list JsValue) : Prop :=
         match l with
         | [] => True
         | x :: r => Plain x /\ all r
         end) items
  | JsObject props =>
      (NoDup (map fst props)
       /\ Forall (fun k => Json.arrayIndex k = None) (map fst props))
      /\ (fix all (l : list (string * JsValue)) : Prop :=
            match l with
            | [] => True
            | p :: r => Plain (snd p) /\ all r
            end) props
  end.

Lemma Plain_array items : Plain (JsArray items) <-> Forall Plain items.
Proof.
  induction items as [| x xs IH]; simpl.
  - split; [constructor | trivial].
  - split.
    + intros [Hx Hxs]. constructor; [exact Hx | now apply IH].
    + intros H. inversion H; subst. split; [assumption | now apply IH].
Qed.

Lemma Plain_object props :
  Plain (JsObject props)
  <-> (NoDup (map fst props)
       /\ Forall (fun k => Json.arrayIndex k = None) (map fst props))
      /\ Forall (fun p => Plain (snd p)) props.
Proof.
  simpl. apply and_iff_compat_l.
  induction props as [| p ps IH].
  - split; [constructor | trivial].
  - split.
    + intros [Hx Hxs]. constructor; [exact Hx | now apply IH].
    + intros H. inversion H; subst. split; [assumption | now apply IH].
Qed.

Lemma skipWhitespace_spaces n s :
  Json.skipWhitespace (Json.spaces n ++ s) = Json.skipWhitespace s.
Proof. induction n as [| n IH]; simpl; [reflexivity | exact IH]. Qed.

Lemma skipWhitespace_lineBreak n s :
  Json.skipWhitespace (Json.lineBreak n ++ s) = Json.skipWhitespace s.
Proof. unfold Json.lineBreak. simpl. apply skipWhitespace_spaces. Qed.

Lemma skipWhitespace_idempotent s :
  Json.skipWhitespace (Json.skipWhitespace s) = Json.skipWhitespace s.
Proof.
  induction s as [| c r IH]; simpl; [reflexivity |].
  destruct (Json.isWhitespace c) eqn:E; [exact IH |].
  simpl. now rewrite E.
Qed.

Lemma parseValue_skipWhitespace fuel s :
  Json.parseValue fuel (Json.skipWhitespace s) = Json.parseValue fuel s.
Proof.
  destruct fuel as [| fuel]; [reflexivity |].
  simpl. now rewrite skipWhitespace_idempotent.
Qed.

Lemma parseStringChars_quoteChar c tail :
  Json.parseStringChars (Json.quoteChar c ++ tail)
  = Json.consResult (String c "") (Json.parseStringChars tail).
Proof.
  destruct c as [[] [] [] [] [] [] [] []]; reflexivity.
Qed.

Lemma parseStringChars_quoteChars s rest :
  Json.parseStringChars
    (Json.quoteChars s ++ String Json.dquote rest)
  = Some (s, rest).
Proof.
  induction s as [| c r IH].
  - reflexivity.
  - cbn [Json.quoteChars]. rewrite string_append_assoc.
    rewrite parseStringChars_quoteChar, IH. reflexivity.
Qed.

Lemma parseStringChars_quote s rest :
  exists tail,
    (Json.quote s ++ rest)%string = String Json.dquote tail
    /\ Json.parseStringChars tail = Some (s, rest).
Proof.
  unfold Json.quote. eexists. split.
  - cbn [append]. reflexivity.
  - rewrite string_append_assoc. cbn [append].
    apply parseStringChars_quoteChars.
Qed.

(** The equations of the reader on the first character of a value. *)
Lemma parseValue_string fuel tail :
  Json.parseValue (S fuel) (String Json.dquote tail)
  = match Json.parseStringChars tail with
    | Some (str, rest) => Some (JsString str, rest)
    | None => None
    end.
Proof. reflexivity. Qed.

Lemma parseValue_array fuel r :
  Json.parseValue (S fuel) (String "["%char r)
  = match Json.skipWhitespace r with
    | String c1 r1 =>
        if Ascii.eqb c1 "]"%char then Some (JsArray [], r1)
        else match Json.parseElements fuel r with
             | Some (items, rest) => Some (JsArray items, rest)
             | None => None
             end
    | EmptyString => None
    end.
Proof. reflexivity. Qed.

Lemma parseValue_object fuel r :
  Json.parseValue (S fuel) (String "{"%char r)
  = match Json.skipWhitespace r with
    | String c1 r1 =>
        if Ascii.eqb c1 "}"%char then Some (JsObject [], r1)
        else match Json.parseMembers fuel r with
             | Some (members, rest) =>
                 Some (Json.objectOfMembers members, rest)
             | None => None
             end
    | EmptyString => None
    end.
Proof. reflexivity. Qed.

Lemma parseElements_step fuel s :
  Json.parseElements (S fuel) s
  = match Json.parseValue fuel s with
    | Some (v, r) =>
        match Json.skipWhitespace r with
        | String c r1 =>
            if Ascii.eqb c ","%char then
              match Json.parseElements fuel r1 with
              | Some (vs, rest) => Some (v :: vs, rest)
              | None => None
              end
            else if Ascii.eqb c "]"%char then Some ([v], r1)
            else None
        | EmptyString => None
        end
    | None => None
    end.
Proof. reflexivity. Qed.

Lemma parseMembers_step fuel tail :
  Json.parseMembers (S fuel) (String Json.dquote tail)
  = match Json.parseStringChars tail with
    | Some (k, r1) =>
        match Json.skipWhitespace r1 with
        | String colon r2 =>
            if Ascii.eqb colon ":"%char then
              match Json.parseValue fuel r2 with
              | Some (v, r3) =>
                  match Json.skipWhitespace r3 with
                  | String c r4 =>
                      if Ascii.eqb c ","%char then
                        match Json.parseMembers fuel r4 with
                        | Some (ms, rest) => Some ((k, v) :: ms, rest)
                        | None => None
                        end
                      else if Ascii.eqb c "}"%char then Some ([(k, v)], r4)
                      else None
                  | EmptyString => None
                  end
              | None => None
              end
            else None
        | EmptyString => None
        end
    | None => None
    end.
Proof. reflexivity. Qed.

Lemma parseMembers_skipWhitespace fuel s :
  Json.parseMembers fuel (Json.skipWhitespace s) = Json.parseMembers fuel s.
Proof.
  destruct fuel as [| fuel]; [reflexivity |].
  simpl. now rewrite skipWhitespace_idempotent.
Qed.

(** The text of a plain value starts with a character that is neither
    white space nor a closing bracket. *)
Lemma stringifyAt_head indent v :
  Plain v ->
  exists c t,
    Json.stringifyAt indent v = String c t
    /\ Json.isWhitespace c = false
    /\ Ascii.eqb c "]"%char = false.
Proof.
  destruct v as [| [] | literal | s | [| x xs] | [| p ps] | first rest];
    simpl; intros H; try contradiction; eexists; eexists;
    (split; [reflexivity | split; reflexivity]).
Qed.

(** A new key that is no array index goes last. *)
Lemma setProp_fresh k v props :
  ~ In k (map fst props) -> Json.arrayIndex k = None ->
  Json.setProp k v props = props ++ [(k, v)].
Proof.
  intros Hk Hindex.
  induction props as [| [k' v'] props IH]; simpl; [reflexivity |].
  destruct (String.eqb_spec k' k) as [-> | Hne].
  - exfalso. apply Hk. now left.
  - unfold Json.listedBefore. rewrite Hindex.
    rewrite IH; [reflexivity |]. intros Hin. apply Hk. now right.
Qed.

Lemma fold_setProp_distinct members :
  forall acc,
    NoDup (map fst (acc ++ members)) ->
    Forall (fun k => Json.arrayIndex k = None) (map fst members) ->
    fold_left (fun props m => Json.setProp (fst m) (snd m) props) members acc
    = acc ++ members.
Proof.
  induction members as [| [k v] members IH]; intros acc Hnd Hindex; simpl.
  - now rewrite app_nil_r.
  - inversion Hindex as [| ? ? Hk Hrest]; subst.
    rewrite setProp_fresh.
    + rewrite IH.
      * now rewrite <- app_assoc.
      * now rewrite <- app_assoc.
      * exact Hrest.
    + rewrite map_app in Hnd. simpl in Hnd.
      apply NoDup_remove_2 in Hnd. intros Hin. apply Hnd.
      apply in_or_app. now left.
    + exact Hk.
Qed.

Lemma objectOfMembers_distinct props :
  NoDup (map fst props) ->
  Forall (fun k => Json.arrayIndex k = None) (map fst props) ->
  Json.objectOfMembers props = JsObject props.
Proof.
  intros Hnd Hindex. unfold Json.objectOfMembers.
  now rewrite (fold_setProp_distinct props []).
Qed.

(** What the main statement says of one value: printed at any depth and
    followed by any text, it is read back, with that text left over, by a
    reader with at least as much fuel as the printed text is long. *)
Definition ReadsBack (v : JsValue) : Prop :=
  forall indent rest fuel,
    String.length (Json.stringifyAt indent v) <= fuel ->
    Json.parseValue fuel (Json.stringifyAt indent v ++ rest) = Some (v, rest).

Lemma parseElements_stringify items :
  items <> [] ->
  Forall Plain items ->
  Forall ReadsBack items ->
  forall indent outer rest fuel,
    String.length
      (String.concat ("," ++ Json.lineBreak indent)
         (map (Json.stringifyAt indent) items)) < fuel ->
    Json.parseElements fuel
      (Json.lineBreak indent
         ++ (String.concat ("," ++ Json.lineBreak indent)
               (map (Json.stringifyAt indent) items)
               ++ (Json.lineBreak outer ++ String "]"%char rest)))
    = Some (items, rest).
Proof.
  induction items as [| x xs IH]; [congruence |].
  intros _ Hplain Hread indent outer rest fuel Hfuel.
  inversion Hplain as [| ? ? Hpx Hpxs]; subst.
  inversion Hread as [| ? ? Hrx Hrxs]; subst.
  destruct fuel as [| fuel]; [lia |].
  rewrite parseElements_step.
  rewrite <- parseValue_skipWhitespace, skipWhitespace_lineBreak,
    parseValue_skipWhitespace.
  destruct xs as [| y ys].
  - cbn [map String.concat] in *.
    rewrite Hrx by lia.
    rewrite skipWhitespace_lineBreak. reflexivity.
  - change (String.concat ("," ++ Json.lineBreak indent)
              (map (Json.stringifyAt indent) (x :: y :: ys)))
      with (Json.stringifyAt indent x
              ++ ("," ++ Json.lineBreak indent)
              ++ String.concat ("," ++ Json.lineBreak indent)
                   (map (Json.stringifyAt indent) (y :: ys)))%string in *.
    rewrite !string_length_append in Hfuel.
    rewrite !string_append_assoc.
    rewrite Hrx by lia.
    cbn [append Json.skipWhitespace Json.isWhitespace Ascii.eqb Bool.eqb orb].
    cbn [append] in Hfuel, IH. cbn [String.length] in Hfuel.
    rewrite IH; [reflexivity | congruence | assumption | assumption | lia].
Qed.

Lemma parseValue_space fuel s :
  Json.parseValue fuel (String " "%char s) = Json.parseValue fuel s.
Proof.
  rewrite <- parseValue_skipWhitespace. cbn [Json.skipWhitespace].
  change (Json.isWhitespace " "%char) with true. cbv iota.
  apply parseValue_skipWhitespace.
Qed.

Lemma quote_append k tail :
  (Json.quote k ++ tail)%string
  = String Json.dquote (Json.quoteChars k ++ String Json.dquote tail).
Proof.
  unfold Json.quote. cbn [append]. now rewrite string_append_assoc.
Qed.

Lemma parseMembers_stringify props :
  props <> [] ->
  Forall (fun p => ReadsBack (snd p)) props ->
  forall indent outer rest fuel,
    String.length
      (String.concat ("," ++ Json.lineBreak indent)
         (map (fun p => (Json.quote (fst p) ++ ": "
                           ++ Json.stringifyAt indent (snd p))%string)
              props)) < fuel ->
    Json.parseMembers fuel
      (Json.lineBreak indent
         ++ (String.concat ("," ++ Json.lineBreak indent)
               (map (fun p => (Json.quote (fst p) ++ ": "
                                 ++ Json.stringifyAt indent (snd p))%string)
                    props)
               ++ (Json.lineBreak outer ++ String "}"%char rest)))
    = Some (props, rest).
Proof.
  induction props as [| [k x] xs IH]; [congruence |].
  intros _ Hread indent outer rest fuel Hfuel.
  inversion Hread as [| ? ? Hrx Hrxs]; subst. cbn [snd] in Hrx.
  destruct fuel as [| fuel]; [lia |].
  rewrite <- parseMembers_skipWhitespace, skipWhitespace_lineBreak,
    parseMembers_skipWhitespace.
  destruct xs as [| y ys].
  - cbn [map String.concat fst snd] in *.
    rewrite !string_length_append in Hfuel. cbn [String.length] in Hfuel.
    rewrite !string_append_assoc, quote_append.
    rewrite parseMembers_step, parseStringChars_quoteChars.
    cbn [append Json.skipWhitespace].
    change (Json.isWhitespace ":"%char) with false. cbv iota.
    change (Ascii.eqb ":"%char ":"%char) with true. cbv iota.
    rewrite parseValue_space, Hrx by lia.
    rewrite skipWhitespace_lineBreak. reflexivity.
  - change (String.concat ("," ++ Json.lineBreak indent)
              (map (fun p => (Json.quote (fst p) ++ ": "
                                ++ Json.stringifyAt indent (snd p))%string)
                   ((k, x) :: y :: ys)))
      with ((Json.quote k ++ ": " ++ Json.stringifyAt indent x)
              ++ ("," ++ Json.lineBreak indent)
              ++ String.concat ("," ++ Json.lineBreak indent)
                   (map (fun p => (Json.quote (fst p) ++ ": "
                                     ++ Json.stringifyAt indent (snd p))%string)
                        (y :: ys)))%string in *.
    rewrite !string_length_append in Hfuel.
    rewrite !string_append_assoc, quote_append.
    rewrite parseMembers_step, parseStringChars_quoteChars.
    cbn [append Json.skipWhitespace].
    change (Json.isWhitespace ":"%char) with false. cbv iota.
    change (Ascii.eqb ":"%char ":"%char) with true. cbv iota.
    rewrite parseValue_space, Hrx by lia.
    cbn [append Json.skipWhitespace].
    change (Json.isWhitespace ","%char) with false. cbv iota.
    change (Ascii.eqb ","%char ","%char) with true. cbv iota.
    cbn [append] in Hfuel, IH. cbn [String.length] in Hfuel.
    rewrite IH; [reflexivity | congruence | assumption | lia].
Qed.

Lemma stringifyAt_array_text indent x xs rest :
  (Json.stringifyAt indent (JsArray (x :: xs)) ++ rest)%string
  = String "["%char
      (Json.lineBreak (indent + 2)
         ++ (String.concat ("," ++ Json.lineBreak (indent + 2))
               (map (Json.stringifyAt (indent + 2)) (x :: xs))
               ++ (Json.lineBreak indent ++ String "]"%char rest))).
Proof.
  change (Json.stringifyAt indent (JsArray (x :: xs)))
    with (String "["%char
            (Json.lineBreak (indent + 2)
               ++ String.concat ("," ++ Json.lineBreak (indent + 2))
                    (map (Json.stringifyAt (indent + 2)) (x :: xs))
               ++ Json.lineBreak indent ++ "]"))%string.
  generalize (String.concat ("," ++ Json.lineBreak (indent + 2))
                (map (Json.stringifyAt (indent + 2)) (x :: xs))).
  intros elements. cbn [append]. now rewrite !string_append_assoc.
Qed.

Lemma stringifyAt_object_text indent p ps rest :
  (Json.stringifyAt indent (JsObject (p :: ps)) ++ rest)%string
  = String "{"%char
      (Json.lineBreak (indent + 2)
         ++ (String.concat ("," ++ Json.lineBreak (indent + 2))
               (map (fun p => (Json.quote (fst p) ++ ": "
                        ++ Json.stringifyAt (indent + 2) (snd p))%string)
                    (p :: ps))
               ++ (Json.lineBreak indent ++ String "}"%char rest))).
Proof.
  change (Json.stringifyAt indent (JsObject (p :: ps)))
    with (String "{"%char
            (Json.lineBreak (indent + 2)
               ++ String.concat ("," ++ Json.lineBreak (indent + 2))
                    (map (fun p => (Json.quote (fst p) ++ ": "
                            ++ Json.stringifyAt (indent + 2) (snd p))%string)
                         (p :: ps))
               ++ Json.lineBreak indent ++ "}"))%string.
  generalize (String.concat ("," ++ Json.lineBreak (indent + 2))
                (map (fun p => (Json.quote (fst p) ++ ": "
                        ++ Json.stringifyAt (indent + 2) (snd p))%string)
                     (p :: ps))).
  intros members. cbn [append]. now rewrite !string_append_assoc.
Qed.

Lemma skipWhitespace_elements_head sep indent x xs tail :
  Plain x ->
  exists c t,
    Json.skipWhitespace
      (String.concat sep (map (Json.stringifyAt indent) (x :: xs)) ++ tail)
    = String c t
    /\ Ascii.eqb c "]"%char = false.
Proof.
  intros Hx.
  destruct (@stringifyAt_head indent x Hx) as (c & t & Hc & Hws & Hnb).
  destruct xs as [| y ys].
  - cbn [map String.concat]. rewrite Hc. cbn [append Json.skipWhitespace].
    rewrite Hws. eauto.
  - change (String.concat sep (map (Json.stringifyAt indent) (x :: y :: ys)))
      with (Json.stringifyAt indent x ++ sep
              ++ String.concat sep (map (Json.stringifyAt indent) (y :: ys)))
             %string.
    rewrite Hc. cbn [append Json.skipWhitespace]. rewrite Hws. eauto.
Qed.

Lemma skipWhitespace_members_head sep indent p ps tail :
  exists t,
    Json.skipWhitespace
      (String.concat sep
         (map (fun p => (Json.quote (fst p) ++ ": "
                           ++ Json.stringifyAt indent (snd p))%string)
              (p :: ps)) ++ tail)
    = String Json.dquote t.
Proof.
  destruct ps as [| q qs].
  - cbn [map String.concat]. rewrite !string_append_assoc, quote_append.
    eexists. reflexivity.
  - change (String.concat sep
              (map (fun p => (Json.quote (fst p) ++ ": "
                                ++ Json.stringifyAt indent (snd p))%string)
                   (p :: q :: qs)))
      with ((Json.quote (fst p) ++ ": " ++ Json.stringifyAt indent (snd p))
              ++ sep
              ++ String.concat sep
                   (map (fun p => (Json.quote (fst p) ++ ": "
                                     ++ Json.stringifyAt indent (snd p))%string)
                        (q :: qs)))%string.
    rewrite !string_append_assoc, quote_append.
    eexists. reflexivity.
Qed.

Lemma length_stringifyAt_array indent x xs :
  String.length
    (String.concat ("," ++ Json.lineBreak (indent + 2))
       (map (Json.stringifyAt (indent + 2)) (x :: xs))) + 2
  <= String.length (Json.stringifyAt indent (JsArray (x :: xs))).
Proof.
  rewrite <- (string_append_nil_r (Json.stringifyAt indent (JsArray (x :: xs)))).
  rewrite stringifyAt_array_text. cbn [String.length].
  rewrite !string_length_append. change (String.length "]") with 1. lia.
Qed.

Lemma length_stringifyAt_object indent p ps :
  String.length
    (String.concat ("," ++ Json.lineBreak (indent + 2))
       (map (fun p => (Json.quote (fst p) ++ ": "
                ++ Json.stringifyAt (indent + 2) (snd p))%string)
            (p :: ps))) + 2
  <= String.length (Json.stringifyAt indent (JsObject (p :: ps))).
Proof.
  rewrite <- (string_append_nil_r (Json.stringifyAt indent (JsObject (p :: ps)))).
  rewrite stringifyAt_object_text. cbn [String.length].
  rewrite !string_length_append. change (String.length "}") with 1. lia.
Qed.

(** Every plain value, printed at any depth and followed by any text, is
    read back with that text left over. *)
Lemma parseValue_stringifyAt v : Plain v -> ReadsBack v.
Proof.
  induction v as [| b | literal | s | items IH | props IH | first others]
    using JsValue_nested_ind; intros Hplain indent rest fuel Hfuel.
  - destruct fuel; [simpl in Hfuel; lia | reflexivity].
  - destruct fuel; [destruct b; simpl in Hfuel; lia |].
    destruct b; reflexivity.
  - contradiction.
  - destruct fuel; [simpl in Hfuel; lia |].
    cbn [Json.stringifyAt]. rewrite quote_append.
    rewrite parseValue_string, parseStringChars_quoteChars. reflexivity.
  - apply Plain_array in Hplain.
    destruct items as [| x xs].
    { destruct fuel; [simpl in Hfuel; lia | reflexivity]. }
    assert (Hread : Forall ReadsBack (x :: xs)).
    { clear Hfuel. induction IH as [| y ys Hy Hys IHF]; constructor.
      - inversion Hplain; subst. now apply Hy.
      - inversion Hplain; subst. now apply IHF. }
    pose proof (length_stringifyAt_array indent x xs) as Hlen.
    rewrite stringifyAt_array_text.
    destruct fuel as [| fuel]; [lia |].
    rewrite parseValue_array, skipWhitespace_lineBreak.
    inversion Hplain as [| ? ? Hpx Hpxs]; subst.
    destruct (@skipWhitespace_elements_head
                ("," ++ Json.lineBreak (indent + 2))%string (indent + 2)
                x xs (Json.lineBreak indent ++ String "]"%char rest) Hpx)
      as (c & t & Hc & Hnb).
    rewrite Hc, Hnb.
    rewrite (@parseElements_stringify (x :: xs));
      [reflexivity | congruence | assumption | assumption | lia].
  - apply Plain_object in Hplain. destruct Hplain as [[Hnd Hindex] Hplain].
    destruct props as [| [k x] xs].
    { destruct fuel; [simpl in Hfuel; lia | reflexivity]. }
    assert (Hread : Forall (fun p => ReadsBack (snd p)) ((k, x) :: xs)).
    { clear Hfuel Hnd Hindex.
      induction IH as [| y ys Hy Hys IHF]; constructor.
      - inversion Hplain; subst. now apply Hy.
      - inversion Hplain; subst. now apply IHF. }
    pose proof (length_stringifyAt_object indent (k, x) xs) as Hlen.
    rewrite stringifyAt_object_text.
    destruct fuel as [| fuel]; [lia |].
    rewrite parseValue_object, skipWhitespace_lineBreak.
    destruct (skipWhitespace_members_head
                ("," ++ Json.lineBreak (indent + 2))%string (indent + 2)
                (k, x) xs (Json.lineBreak indent ++ String "}"%char rest))
      as (t & Ht).
    rewrite Ht. change (Ascii.eqb Json.dquote "}"%char) with false. cbv iota.
    rewrite (@parseMembers_stringify ((k, x) :: xs));
      [| congruence | assumption | lia].
    now rewrite objectOfMembers_distinct.
  - contradiction.
Qed.

(** [JSON.parse(JSON.stringify(value, null, 2))] is [value], for every
    plain value. *)
Lemma parse_stringify v : Plain v -> Json.parse (Json.stringify v) = Some v.
Proof.
  intros Hplain. unfold Json.parse, Json.stringify.
  pose proof (@parseValue_stringifyAt v Hplain 0 ""
                (String.length (Json.stringifyAt 0 v)) (le_n _)) as H.
  rewrite string_append_nil_r in H. rewrite H. reflexivity.
Qed.

(** Fuel is not what makes the reader fail: a text that is read with some
    fuel is read, with the same result, with any fuel that is at least the
    number of characters read; the length of the text is always enough. *)
Lemma skipWhitespace_length s :
  String.length (Json.skipWhitespace s) <= String.length s.
Proof.
  induction s as [| c r IH]; simpl; [lia |].
  destruct (Json.isWhitespace c); simpl; lia.
Qed.

Lemma consResult_length c r str rest :
  Json.consResult c r = Some (str, rest) ->
  exists str0, r = Some (str0, rest).
Proof.
  destruct r as [[str0 rest0] |]; simpl; [| discriminate].
  intros [= <- <-]. eauto.
Qed.

Lemma parseStringChars_length s :
  forall str rest,
    Json.parseStringChars s = Some (str, rest) ->
    String.length rest < String.length s.
Proof.
  assert (Hle : String.length s <= String.length s) by lia.
  revert Hle. generalize (String.length s) at 2. intros n.
  revert s. induction n as [| n IHn]; intros s Hle str rest H.
  { destruct s; [discriminate | simpl in Hle; lia]. }
  assert (IH : forall s' str' rest',
             String.length s' < String.length s ->
             Json.parseStringChars s' = Some (str', rest') ->
             String.length rest' < String.length s').
  { intros s' str' rest' Hlt. apply IHn. lia. }
  clear IHn. destruct s as [| c r]; [discriminate |].
  cbn [Json.parseStringChars] in H.
  destruct (Ascii.eqb c Json.dquote).
  { injection H as <- <-. simpl. lia. }
  destruct (Ascii.eqb c Json.backslash).
  - destruct r as [| e r1]; [discriminate |].
    destruct (Json.simpleEscape e).
    + apply consResult_length in H. destruct H as [str0 H].
      apply IH in H; simpl in *; lia.
    + destruct (Ascii.eqb e "u"); [| discriminate].
      destruct r1 as [| h1 [| h2 [| h3 [| h4 r2]]]]; try discriminate.
      destruct (Json.hexValue h1); [| discriminate].
      destruct (Json.hexValue h2); [| discriminate].
      destruct (Json.hexValue h3); [| discriminate].
      destruct (Json.hexValue h4); [| discriminate].
      apply consResult_length in H. destruct H as [str0 H].
      apply IH in H; simpl in *; lia.
  - destruct (nat_of_ascii c <? 32)%nat; [discriminate |].
    apply consResult_length in H. destruct H as [str0 H].
    apply IH in H; simpl in *; lia.
Qed.

Lemma stripPrefix_length p :
  forall s rest,
    Json.stripPrefix p s = Some rest ->
    String.length s = String.length p + String.length rest.
Proof.
  induction p as [| a p IH]; simpl; intros s rest H.
  - now injection H as <-.
  - destruct s as [| b s]; [discriminate |].
    destruct (Ascii.eqb a b); [| discriminate].
    apply IH in H. simpl. lia.
Qed.

Lemma spanNumber_length s :
  forall literal rest,
    Json.spanNumber s = (literal, rest) ->
    String.length s = String.length literal + String.length rest.
Proof.
  induction s as [| c r IH]; simpl; intros literal rest H.
  - now injection H as <- <-.
  - destruct (Json.isNumberChar c).
    + destruct (Json.spanNumber r) as [n rest0].
      injection H as <- <-. simpl. rewrite (IH n rest0 eq_refl). lia.
    + injection H as <- <-. reflexivity.
Qed.

Lemma isNumberLiteral_nonempty literal :
  Json.isNumberLiteral literal = true -> 0 < String.length literal.
Proof. destruct literal; [discriminate | simpl; lia]. Qed.

Ltac parse_cases H IHv IHe IHm :=
  repeat match type of H with
    | context [if ?b then _ else _] =>
        let E := fresh "Eb" in destruct b eqn:E
    | context [Json.skipWhitespace ?x] =>
        let E := fresh "Ews" in
        pose proof (skipWhitespace_length x);
        destruct (Json.skipWhitespace x) eqn:E
    | context [Json.parseStringChars ?x] =>
        let E := fresh "Estr" in
        destruct (Json.parseStringChars x) as [[? ?] |] eqn:E;
        [pose proof (@parseStringChars_length _ _ _ E) |]
    | context [Json.parseValue ?f ?x] =>
        let E := fresh "Ev" in
        destruct (Json.parseValue f x) as [[? ?] |] eqn:E;
        [pose proof (IHv _ _ _ E) |]
    | context [Json.parseElements ?f ?x] =>
        let E := fresh "Ee" in
        destruct (Json.parseElements f x) as [[? ?] |] eqn:E;
        [pose proof (IHe _ _ _ E) |]
    | context [Json.parseMembers ?f ?x] =>
        let E := fresh "Em" in
        destruct (Json.parseMembers f x) as [[? ?] |] eqn:E;
        [pose proof (IHm _ _ _ E) |]
    | context [Json.stripPrefix ?p ?x] =>
        let E := fresh "Ep" in
        destruct (Json.stripPrefix p x) eqn:E;
        [pose proof (@stripPrefix_length _ _ _ E) |]
    | context [Json.spanNumber ?x] =>
        let E := fresh "En" in
        destruct (Json.spanNumber x) eqn:E;
        pose proof (@spanNumber_length _ _ _ E)
    | None = Some _ => discriminate H
    end.

Lemma parse_consumes fuel :
  (forall s v rest,
      Json.parseValue fuel s = Some (v, rest) ->
      String.length rest < String.length s)
  /\ (forall s vs rest,
        Json.parseElements fuel s = Some (vs, rest) ->
        String.length rest < String.length s)
  /\ (forall s ms rest,
        Json.parseMembers fuel s = Some (ms, rest) ->
        String.length rest < String.length s).
Proof.
  induction fuel as [| fuel (IHv & IHe & IHm)].
  { repeat split; intros; discriminate. }
  split; [| split]; intros s x rest H.
  - cbn [Json.parseValue] in H. parse_cases H IHv IHe IHm.
    all: try (injection H as <- <-).
    all: try match goal with
           | E : Json.isNumberLiteral _ = true |- _ =>
               apply isNumberLiteral_nonempty in E
           end.
    all: cbn [String.length] in *; try lia.
  - cbn [Json.parseElements] in H. parse_cases H IHv IHe IHm.
    all: try (injection H as <- <-).
    all: cbn [String.length] in *; try lia.
  - cbn [Json.parseMembers] in H. parse_cases H IHv IHe IHm.
    all: try (injection H as <- <-).
    all: cbn [String.length] in *; try lia.
Qed.

Ltac fuel_cases H IHv IHe IHm :=
  repeat match type of H with
    | context [if ?b then _ else _] =>
        let E := fresh "Eb" in destruct b eqn:E
    | context [Json.skipWhitespace ?x] =>
        let E := fresh "Ews" in
        pose proof (skipWhitespace_length x);
        destruct (Json.skipWhitespace x) eqn:E
    | context [Json.parseStringChars ?x] =>
        let E := fresh "Estr" in
        destruct (Json.parseStringChars x) as [[? ?] |] eqn:E;
        [pose proof (@parseStringChars_length _ _ _ E) |]
    | context [Json.parseValue ?f ?x] =>
        let E := fresh "Ev" in
        destruct (Json.parseValue f x) as [[? ?] |] eqn:E;
        [pose proof (proj1 (parse_consumes f) _ _ _ E);
         pose proof (IHv _ _ _ E) |]
    | context [Json.parseElements ?f ?x] =>
        let E := fresh "Ee" in
        destruct (Json.parseElements f x) as [[? ?] |] eqn:E;
        [pose proof (proj1 (proj2 (parse_consumes f)) _ _ _ E);
         pose proof (IHe _ _ _ E) |]
    | context [Json.parseMembers ?f ?x] =>
        let E := fresh "Em" in
        destruct (Json.parseMembers f x) as [[? ?] |] eqn:E;
        [pose proof (proj2 (proj2 (parse_consumes f)) _ _ _ E);
         pose proof (IHm _ _ _ E) |]
    | context [Json.stripPrefix ?p ?x] =>
        let E := fresh "Ep" in
        destruct (Json.stripPrefix p x) eqn:E;
        [pose proof (@stripPrefix_length _ _ _ E) |]
    | context [Json.spanNumber ?x] =>
        let E := fresh "En" in
        destruct (Json.spanNumber x) eqn:E;
        pose proof (@spanNumber_length _ _ _ E)
    | None = Some _ => discriminate H
    end.

Ltac refuel f' :=
  repeat match goal with
    | E : forall fuel', _ -> ?t fuel' ?x = _ |- context [?t f' ?x] =>
        rewrite (E f') by (cbn [String.length] in *; lia)
    | E : Json.skipWhitespace ?x = _ |- context [Json.skipWhitespace ?x] =>
        rewrite E
    | E : Ascii.eqb ?a ?b = _ |- context [Ascii.eqb ?a ?b] => rewrite E
    end.

Lemma parse_fuel fuel :
  (forall s v rest,
      Json.parseValue fuel s = Some (v, rest) ->
      forall fuel', String.length s - String.length rest <= fuel' ->
                    Json.parseValue fuel' s = Some (v, rest))
  /\ (forall s vs rest,
        Json.parseElements fuel s = Some (vs, rest) ->
        forall fuel', String.length s - String.length rest <= fuel' ->
                      Json.parseElements fuel' s = Some (vs, rest))
  /\ (forall s ms rest,
        Json.parseMembers fuel s = Some (ms, rest) ->
        forall fuel', String.length s - String.length rest <= fuel' ->
                      Json.parseMembers fuel' s = Some (ms, rest)).
Proof.
  induction fuel as [| fuel (IHv & IHe & IHm)].
  { repeat split; intros; discriminate. }
  split; [| split]; intros s x rest H fuel' Hfuel.
  - pose proof (proj1 (parse_consumes (S fuel)) _ _ _ H) as Hlt.
    destruct fuel' as [| f']; [lia |].
    cbn [Json.parseValue] in H |- *. fuel_cases H IHv IHe IHm.
    all: try (injection H as <- <-).
    all: refuel f'.
    all: try reflexivity.
  - pose proof (proj1 (proj2 (parse_consumes (S fuel))) _ _ _ H) as Hlt.
    destruct fuel' as [| f']; [lia |].
    cbn [Json.parseElements] in H |- *. fuel_cases H IHv IHe IHm.
    all: try (injection H as <- <-).
    all: refuel f'.
    all: try reflexivity.
  - pose proof (proj2 (proj2 (parse_consumes (S fuel))) _ _ _ H) as Hlt.
    destruct fuel' as [| f']; [lia |].
    cbn [Json.parseMembers] in H |- *. fuel_cases H IHv IHe IHm.
    all: try (injection H as <- <-).
    all: refuel f'.
    all: try reflexivity.
Qed.

Lemma parse_fuel_enough text fuel v rest :
  Json.parseValue fuel text = Some (v, rest) ->
  Json.skipWhitespace rest = "" ->
  Json.parse text = Some v.
Proof.
  intros H Hrest. unfold Json.parse.
  rewrite (proj1 (parse_fuel fuel) _ _ _ H (String.length text)) by lia.
  now rewrite Hrest.
Qed.

(** The object of a specification without node arrays is plain: strings,
    booleans, arrays and objects whose keys are distinct and are no array
    indices. *)
Lemma hasNodes_array items :
  Json.hasNodes (JsArray items) = existsb Json.hasNodes items.
Proof. reflexivity. Qed.

Lemma Plain_map {A} (f : A -> JsValue) (l : list A) :
  (forall a, Json.hasNodes (f a) = false -> Plain (f a)) ->
  Json.hasNodes (JsArray (map f l)) = false ->
  Plain (JsArray (map f l)).
Proof.
  intros H Hl. apply Plain_array. rewrite hasNodes_array in Hl.
  induction l as [| a l IH]; simpl in *; constructor.
  - apply H. now apply orb_false_elim in Hl.
  - apply IH. now apply orb_false_elim in Hl.
Qed.

Ltac distinct_keys :=
  simpl;
  repeat (constructor;
          [simpl; let Hf := fresh "Hf" in
                  intros Hf;
                  repeat (destruct Hf as [Hf | Hf]; [discriminate Hf |]);
                  exact Hf |]);
  constructor.

Ltac plain_keys :=
  split; [distinct_keys | simpl; repeat (constructor; [reflexivity |]);
                          constructor].

Lemma Plain_descriptionValue d :
  Json.hasNodes (descriptionValue d) = false -> Plain (descriptionValue d).
Proof. destruct d; simpl; [trivial | discriminate]. Qed.

Lemma Plain_operationValue op :
  Json.hasNodes (operationValue op) = false -> Plain (operationValue op).
Proof.
  unfold operationValue. destruct (op_description op); simpl;
    [intros _ | discriminate].
  split; [plain_keys | repeat split].
Qed.

Lemma Plain_fieldValue f :
  Json.hasNodes (fieldValue f) = false -> Plain (fieldValue f).
Proof.
  unfold fieldValue. destruct (field_description f); simpl;
    [intros _ | discriminate].
  split; [plain_keys | repeat split].
Qed.

Lemma Plain_capabilityValue c :
  Json.hasNodes (capabilityValue c) = false -> Plain (capabilityValue c).
Proof.
  unfold capabilityValue. destruct (cap_description c); simpl;
    [intros _ | discriminate].
  split; [plain_keys | repeat split].
Qed.

Lemma Plain_typeValue t :
  Json.hasNodes (typeValue t) = false -> Plain (typeValue t).
Proof.
  unfold typeValue. intros H.
  change (Json.hasNodes (descriptionValue (type_description t))
          || (Json.hasNodes (JsArray (map fieldValue (type_fields t)))
              || false) = false) in H.
  apply orb_false_elim in H. destruct H as [Hd Hf].
  rewrite orb_false_r in Hf.
  apply Plain_object. split; [plain_keys |].
  repeat constructor; simpl.
  - now apply Plain_descriptionValue.
  - apply Plain_map; [apply Plain_fieldValue | exact Hf].
Qed.

Lemma Plain_specificationValue spec :
  Json.hasNodes (specificationValue spec) = false ->
  Plain (specificationValue spec).
Proof.
  unfold specificationValue. intros H.
  change (Json.hasNodes (JsArray (map operationValue (operations spec)))
          || (Json.hasNodes (JsArray (map typeValue (types spec)))
              || (Json.hasNodes
                    (JsArray (map capabilityValue (capabilities spec)))
                  || false)) = false) in H.
  apply orb_false_elim in H. destruct H as [Ho H].
  apply orb_false_elim in H. destruct H as [Ht H].
  rewrite orb_false_r in H.
  apply Plain_object. split; [plain_keys |].
  repeat constructor; simpl; apply Plain_map; try assumption.
  - apply Plain_operationValue.
  - apply Plain_typeValue.
  - apply Plain_capabilityValue.
Qed.

(** The cache file holds the specification that was saved. *)
Lemma parse_stringify_specification spec :
  Json.hasNodes (specificationValue spec) = false ->
  Json.parse (Json.stringify (specificationValue spec))
  = Some (specificationValue spec).
Proof. intros H. now apply parse_stringify, Plain_specificationValue. Qed.

(* ===================================================================== *)
(** ** Facts about the cache and the entry point                         *)
(* ===================================================================== *)

Lemma paths_differ : String.eqb MCP_SPEC_PATH MCP_SPEC_CACHE_PATH = false.
Proof.
  apply String.eqb_neq. unfold MCP_SPEC_PATH, MCP_SPEC_CACHE_PATH.
  intros H. apply append_inj_l in H. discriminate.
Qed.

(** What [loadFromCache] answers in a world: the value read from the cache
    file when the file is there, is strictly newer than the source, can be
    read and holds JSON text; [null] otherwise. *)
Definition cachedValue (w : World) : JsValue :=
  match files w MCP_SPEC_CACHE_PATH, files w MCP_SPEC_PATH with
  | Some c, Some s =>
      if (mtime c <=? mtime s)%Z then JsNull
      else match readError c, Json.parse (content c) with
           | None, Some v => v
           | _, _ => JsNull
           end
  | _, _ => JsNull
  end.

(** [parseSpecification] with the cache lookup replaced by a miss: parse
    the source, save the result, return it. *)
Definition parseWithoutCache : Eff World JsValue :=
  tryCatch
    (parsedSpec <- parseFromSource ;;
     cacheSpecification parsedSpec ;;;
     ret (specificationValue parsedSpec))
    parseSpecificationCatch.

(** The world after a failed save: one more warning on the console. *)
Definition warned (w : World) (e : JsError) : World :=
  {| files := files w;
     mkdirFailure := mkdirFailure w;
     writeFailure := writeFailure w;
     now := now w;
     delays := delays w;
     console :=
       console w ++ [("Failed to cache MCP specification:", ThrownError e)] |}.

(** The error with which saving [spec] fails in a world, if it does: that
    of [fs.mkdir], or else that of [JSON.stringify], which is called before
    [fs.writeFile] is, or else that of [fs.writeFile]. *)
Definition saveFailure (spec : McpSpecification) (w : World)
  : option JsError :=
  match mkdirFailure w with
  | Some e => Some e
  | None =>
      if Json.hasNodes (specificationValue spec) then Some circularError
      else writeFailure w
  end.

Lemma saveFailure_none spec w :
  saveFailure spec w = None ->
  mkdirFailure w = None
  /\ Json.hasNodes (specificationValue spec) = false
  /\ writeFailure w = None.
Proof.
  unfold saveFailure. destruct (mkdirFailure w); [discriminate |].
  destruct (Json.hasNodes (specificationValue spec)); [discriminate |].
  intros ->. repeat split.
Qed.

Lemma loadFromCache_cachedValue w :
  loadFromCache w = (Returns (cachedValue w), w).
Proof.
  unfold loadFromCache, cachedValue, tryCatch, bind, fs_access, fs_stat,
    fs_readFile, JSON_parse, ret, throw.
  destruct (files w MCP_SPEC_CACHE_PATH) as [c |] eqn:Ec; simpl;
    rewrite ?Ec; simpl; [| reflexivity].
  destruct (files w MCP_SPEC_PATH) as [s |] eqn:Es; simpl;
    rewrite ?Ec, ?Es; simpl; [| reflexivity].
  destruct (mtime c <=? mtime s)%Z; simpl; [reflexivity |].
  rewrite ?Ec; simpl.
  destruct (readError c); simpl; [reflexivity |].
  destruct (Json.parse (content c)); reflexivity.
Qed.

Lemma parseSpecification_unfold w :
  parseSpecification w
  = if toBoolean (cachedValue w) then (Returns (cachedValue w), w)
    else parseWithoutCache w.
Proof.
  unfold parseSpecification, parseWithoutCache, tryCatch, bind.
  rewrite loadFromCache_cachedValue.
  destruct (toBoolean (cachedValue w)); reflexivity.
Qed.

Lemma cacheSpecification_failure spec w e :
  saveFailure spec w = Some e ->
  cacheSpecification spec w = (Returns tt, warned w e).
Proof.
  unfold saveFailure, cacheSpecification, tryCatch, bind, fs_mkdir,
    JSON_stringify, fs_writeFile, console_warn, warned, throw, ret.
  destruct w as [fs md wr nw dl con].
  cbn [files mkdirFailure writeFailure now delays console].
  destruct md as [e1 |].
  - intros [= ->]. reflexivity.
  - destruct (Json.hasNodes (specificationValue spec)).
    + intros [= <-]. reflexivity.
    + intros ->. reflexivity.
Qed.

(** The world after a successful save: the cache file holds the printed
    specification, stamped with the time of the write, and the clock has
    moved on. *)
Definition saved (w : World) (spec : McpSpecification) : World :=
  {| files := fun p =>
       if String.eqb p MCP_SPEC_CACHE_PATH
       then Some (writtenFile (files w MCP_SPEC_CACHE_PATH) (now w)
                    (Json.stringify (specificationValue spec)))
       else files w p;
     mkdirFailure := mkdirFailure w;
     writeFailure := writeFailure w;
     now := now w + Z.of_N (delays w 0);
     delays := fun k => delays w (S k);
     console := console w |}.

Lemma cacheSpecification_success spec w :
  saveFailure spec w = None ->
  cacheSpecification spec w = (Returns tt, saved w spec).
Proof.
  unfold saveFailure, cacheSpecification, tryCatch, bind, fs_mkdir,
    JSON_stringify, fs_writeFile, saved, throw, ret.
  destruct w as [fs md wr nw dl con].
  cbn [files mkdirFailure writeFailure now delays console].
  destruct md as [e1 |]; [discriminate |].
  destruct (Json.hasNodes (specificationValue spec)); [discriminate |].
  intros ->. reflexivity.
Qed.

(** Parsing the source reads the world and leaves it as it is. *)
Lemma parseFromSource_world w :
  snd (parseFromSource w) = w.
Proof.
  unfold parseFromSource, bind, fs_readFile, lift, ret, throw.
  destruct (files w MCP_SPEC_PATH) as [s |]; [| reflexivity].
  destruct (readError s); [reflexivity |].
  destruct (validateSpecification _); reflexivity.
Qed.

(** Parsing the source depends on the source file only. *)
Lemma parseFromSource_files w1 w2 :
  files w1 MCP_SPEC_PATH = files w2 MCP_SPEC_PATH ->
  fst (parseFromSource w1) = fst (parseFromSource w2).
Proof.
  intros H.
  unfold parseFromSource, bind, fs_readFile, lift, ret, throw.
  rewrite H.
  destruct (files w2 MCP_SPEC_PATH) as [s |]; [| reflexivity].
  destruct (readError s); [reflexivity |].
  destruct (validateSpecification _); reflexivity.
Qed.

(** The world after [cacheSpecification]: saved, or warned. *)
Definition afterSave (w : World) (spec : McpSpecification) : World :=
  match saveFailure spec w with
  | Some e => warned w e
  | None => saved w spec
  end.

Lemma cacheSpecification_afterSave spec w :
  cacheSpecification spec w = (Returns tt, afterSave w spec).
Proof.
  unfold afterSave. destruct (saveFailure spec w) as [e |] eqn:E.
  - now apply cacheSpecification_failure.
  - now apply cacheSpecification_success.
Qed.

Lemma parseWithoutCache_cases w :
  parseWithoutCache w
  = match fst (parseFromSource w) with
    | Returns spec => (Returns (specificationValue spec), afterSave w spec)
    | Throws t => parseSpecificationCatch t w
    end.
Proof.
  unfold parseWithoutCache, tryCatch, bind.
  pose proof (parseFromSource_world w) as Hw.
  destruct (parseFromSource w) as [[spec | t] w1]; simpl in *; subst w1.
  - rewrite cacheSpecification_afterSave. reflexivity.
  - reflexivity.
Qed.

(** The beginning of the code of every parser error. *)
Definition parserPrefix : string :=
  (ErrorPrefix_AXE ++ "-" ++ AxeErrorCategory_PARSER)%string.

Lemma prefix_append (p x : string) : String.prefix p (p ++ x) = true.
Proof.
  induction p as [| c p IH]; simpl; [destruct x; reflexivity |].
  destruct (ascii_dec c c); [exact IH | congruence].
Qed.

Lemma createParserError_prefix n text d c :
  JsString.startsWith (code (createParserError n text d c)) parserPrefix
  = true.
Proof.
  unfold JsString.startsWith, parserPrefix. rewrite code_createParserError.
  replace (ErrorPrefix_AXE ++ "-" ++ AxeErrorCategory_PARSER
             ++ JsString.padStart 3 "0"%char (JsString.ofNumber n))%string
    with ((ErrorPrefix_AXE ++ "-" ++ AxeErrorCategory_PARSER)
            ++ JsString.padStart 3 "0"%char (JsString.ofNumber n))%string.
  - apply prefix_append.
  - rewrite !string_append_assoc. reflexivity.
Qed.

Lemma validateSpecification_throws spec t :
  validateSpecification spec = Throws t ->
  exists n text,
    t = ThrownAxe (createParserError n text
                     (Some [("path", JsString MCP_SPEC_PATH)]) None)
    /\ In n [2; 3; 4; 5]%N.
Proof.
  unfold validateSpecification.
  destruct (List.length (operations spec) =? 0)%nat.
  { intros [= <-]. do 2 eexists. split; [reflexivity | left; reflexivity]. }
  destruct (List.length (types spec) =? 0)%nat.
  { intros [= <-]. do 2 eexists. split; [reflexivity | right; left; reflexivity]. }
  assert (Hreq : forall required t',
             checkRequiredOperations spec required = Throws t' ->
             exists n text,
               t' = ThrownAxe (createParserError n text
                        (Some [("path", JsString MCP_SPEC_PATH)]) None)
               /\ In n [2; 3; 4; 5]%N).
  { induction required as [| r required IH]; simpl; [discriminate |].
    intros t'. destruct (negb (hasOperation spec r)).
    - intros [= <-]. do 2 eexists. split; [reflexivity | do 2 right; left; reflexivity].
    - apply IH. }
  destruct (checkRequiredOperations spec requiredOperations) eqn:E.
  - destruct (List.length (capabilities spec) =? 0)%nat; [| discriminate].
    intros [= <-]. do 2 eexists. split; [reflexivity | do 3 right; left; reflexivity].
  - intros [= <-]. eapply Hreq. exact E.
Qed.

(** The specification [parseFromSource] builds from a text: the walk over
    the children of the tree of the compiler.  The syntax errors the
    compiler met play no part. *)
Definition specificationOf (sourceText : string) : McpSpecification :=
  walkSourceFile (children (createSourceFile MCP_SPEC_PATH sourceText)).

(** What [parseFromSource] does, by the state of the source file. *)
Lemma parseFromSource_cases w :
  fst (parseFromSource w)
  = match fst (fs_readFile MCP_SPEC_PATH w) with
    | Throws t => Throws t
    | Returns sourceText =>
        match validateSpecification (specificationOf sourceText) with
        | Throws t => Throws t
        | Returns _ => Returns (specificationOf sourceText)
        end
    end.
Proof.
  unfold parseFromSource, specificationOf, bind, fs_readFile, lift, ret,
    throw.
  destruct (files w MCP_SPEC_PATH) as [s |]; [| reflexivity].
  destruct (readError s); [reflexivity |]. simpl.
  destruct (validateSpecification _); reflexivity.
Qed.

Lemma fs_readFile_throws path w t :
  fst (fs_readFile path w) = Throws t -> exists e, t = ThrownError e.
Proof.
  unfold fs_readFile. destruct (files w path) as [f |].
  - destruct (readError f); simpl; [intros [= <-]; eauto | discriminate].
  - simpl. intros [= <-]. eauto.
Qed.



(** The values that count as false: [null], [false], the empty string and
    the numbers that are zero. *)
Lemma toBoolean_false_iff v :
  toBoolean v = false
  <-> v = JsNull \/ v = JsBool false \/ v = JsString ""
      \/ exists literal, v = JsNumber literal
                         /\ Json.isZeroLiteral literal = true.
Proof.
  split.
  - destruct v as [| [] | literal | s | items | props | first rest]; simpl;
      try discriminate; intros H.
    + now left.
    + right. now left.
    + right. right. right. exists literal. split; [reflexivity |].
      now apply negb_false_iff in H.
    + right. right. left. apply negb_false_iff in H.
      apply String.eqb_eq in H. now subst.
  - intros [-> | [-> | [-> | (literal & -> & H)]]]; simpl;
      try reflexivity.
    now rewrite H.
Qed.

(** C2 (as amended). When there is no cache file, when the source file
    cannot be examined, or when the cache file is not strictly newer than
    the source, [parseSpecification] does what it does without a cache: it
    parses the source.  When the cache file is strictly newer, can be read
    and holds the JSON text of a value that counts as true (any value but
    [null], [false], the empty string and a number that is zero), that
    value is returned as it was read and the world is left as it is,
    whatever the source file contains.  A strictly newer cache file that
    cannot be read, whose text is not JSON, or whose value counts as false
    is passed by as well: the source is parsed. *)
Theorem cache_used_only_when_strictly_newer :
  forall w,
    (files w MCP_SPEC_CACHE_PATH = None \/ files w MCP_SPEC_PATH = None ->
     parseSpecification w = parseWithoutCache w)
    /\ (forall c s,
          files w MCP_SPEC_CACHE_PATH = Some c ->
          files w MCP_SPEC_PATH = Some s ->
          (mtime c <= mtime s)%Z ->
          parseSpecification w = parseWithoutCache w)
    /\ (forall c s v,
          files w MCP_SPEC_CACHE_PATH = Some c ->
          files w MCP_SPEC_PATH = Some s ->
          (mtime s < mtime c)%Z ->
          readError c = None ->
          Json.parse (content c) = Some v ->
          toBoolean v = true ->
          parseSpecification w = (Returns v, w))
    /\ (forall c s,
          files w MCP_SPEC_CACHE_PATH = Some c ->
          files w MCP_SPEC_PATH = Some s ->
          (mtime s < mtime c)%Z ->
          readError c <> None
          \/ Json.parse (content c) = None
          \/ (exists v, Json.parse (content c) = Some v
                        /\ toBoolean v = false) ->
          parseSpecification w = parseWithoutCache w)
    /\ (forall v,
          toBoolean v = false
          <-> v = JsNull \/ v = JsBool false \/ v = JsString ""
              \/ exists literal, v = JsNumber literal
                                 /\ Json.isZeroLiteral literal = true).
Proof.
  intros w. rewrite parseSpecification_unfold. unfold cachedValue.
  split; [| split; [| split; [| split]]].
  - intros [-> | H]; [reflexivity |]. rewrite H.
    destruct (files w MCP_SPEC_CACHE_PATH); reflexivity.
  - intros c s -> -> Hle.
    apply Z.leb_le in Hle. rewrite Hle. reflexivity.
  - intros c s v -> -> Hlt -> -> Hv.
    apply Z.leb_gt in Hlt. rewrite Hlt. rewrite Hv. reflexivity.
  - intros c s -> -> Hlt H.
    apply Z.leb_gt in Hlt. rewrite Hlt.
    destruct H as [H | [H | (v & H & Hv)]].
    + destruct (readError c); [reflexivity | congruence].
    + rewrite H. destruct (readError c); reflexivity.
    + rewrite H. destruct (readError c); [reflexivity |].
      rewrite Hv. reflexivity.
  - apply toBoolean_false_iff.
Qed.

(** C8. Loading the cache never throws and changes nothing; when the cache
    file is missing, the source cannot be examined, the cache cannot be
    read, or its text is not JSON, the answer is [null] and
    [parseSpecification] parses the source.  When saving fails, in
    [fs.mkdir], [JSON.stringify] or [fs.writeFile], the failure is logged
    as one warning, nothing else changes, and [parseSpecification] returns
    the specification it parsed. *)
Theorem cache_failures_are_swallowed :
  forall w,
    (exists v, loadFromCache w = (Returns v, w))
    /\ (forall c,
          files w MCP_SPEC_CACHE_PATH = None
          \/ files w MCP_SPEC_PATH = None
          \/ (files w MCP_SPEC_CACHE_PATH = Some c
              /\ (readError c <> None \/ Json.parse (content c) = None)) ->
          loadFromCache w = (Returns JsNull, w)
          /\ parseSpecification w = parseWithoutCache w)
    /\ (forall spec e,
          saveFailure spec w = Some e ->
          cacheSpecification spec w = (Returns tt, warned w e))
    /\ (forall spec e,
          toBoolean (cachedValue w) = false ->
          fst (parseFromSource w) = Returns spec ->
          saveFailure spec w = Some e ->
          parseSpecification w
          = (Returns (specificationValue spec), warned w e)).
Proof.
  intros w. split; [| split; [| split]].
  - eexists. apply loadFromCache_cachedValue.
  - intros c H.
    assert (Hnull : cachedValue w = JsNull).
    { unfold cachedValue.
      destruct H as [-> | [H | (-> & H)]]; [reflexivity | |].
      - rewrite H. destruct (files w MCP_SPEC_CACHE_PATH); reflexivity.
      - destruct (files w MCP_SPEC_PATH) as [s |]; [| reflexivity].
        destruct (mtime c <=? mtime s)%Z; [reflexivity |].
        destruct H as [H | ->].
        + destruct (readError c); [reflexivity | congruence].
        + destruct (readError c); reflexivity. }
    rewrite parseSpecification_unfold, loadFromCache_cachedValue, Hnull.
    split; reflexivity.
  - intros spec e. apply cacheSpecification_failure.
  - intros spec e Hc Hp Hs.
    rewrite parseSpecification_unfold, Hc, parseWithoutCache_cases, Hp.
    unfold afterSave. rewrite Hs. reflexivity.
Qed.

(* ===================================================================== *)
(** ** Facts about the types of a specification                          *)
(* ===================================================================== *)







Lemma parseSpecificationCatch_throws {A} t w :
  exists t', @parseSpecificationCatch A t w = (Throws t', w).
Proof. unfold parseSpecificationCatch, throw. destruct t; eauto. Qed.



(* ===================================================================== *)
(** ** Facts about parsing twice                                         *)
(* ===================================================================== *)

Lemma cachedValue_files w1 w2 :
  files w2 MCP_SPEC_CACHE_PATH = files w1 MCP_SPEC_CACHE_PATH ->
  files w2 MCP_SPEC_PATH = files w1 MCP_SPEC_PATH ->
  cachedValue w2 = cachedValue w1.
Proof. unfold cachedValue. intros -> ->. reflexivity. Qed.

Lemma parseWithoutCache_value w spec :
  fst (parseFromSource w) = Returns spec ->
  fst (parseWithoutCache w) = Returns (specificationValue spec).
Proof. intros H. rewrite parseWithoutCache_cases, H. reflexivity. Qed.

(** After a successful save, the cache answers [null] or the specification
    that was saved. *)
Lemma cachedValue_saved w spec :
  Json.hasNodes (specificationValue spec) = false ->
  toBoolean (cachedValue (saved w spec)) = true ->
  cachedValue (saved w spec) = specificationValue spec.
Proof.
  intros Htext. unfold cachedValue, saved. simpl.
  rewrite String.eqb_refl, paths_differ.
  destruct (files w MCP_SPEC_PATH) as [s |]; [| discriminate].
  unfold writtenFile at 1. simpl.
  destruct (now w <=? mtime s)%Z; [discriminate |].
  destruct (files w MCP_SPEC_CACHE_PATH) as [c |]; simpl.
  - destruct (readError c); [discriminate |].
    now rewrite parse_stringify_specification.
  - now rewrite parse_stringify_specification.
Qed.

(** C9. If [parseSpecification] returns a value, a second call, in any
    world whose source and cache files are the ones the first call left,
    returns the same value: the second call parses the same source again,
    or reads back from the cache what the first call saved. *)
Theorem parse_twice_same_value :
  forall w v w1,
    parseSpecification w = (Returns v, w1) ->
    forall w2,
      files w2 MCP_SPEC_CACHE_PATH = files w1 MCP_SPEC_CACHE_PATH ->
      files w2 MCP_SPEC_PATH = files w1 MCP_SPEC_PATH ->
      fst (parseSpecification w2) = Returns v.
Proof.
  intros w v w1 H w2 Hc Hs.
  rewrite parseSpecification_unfold in H.
  destruct (toBoolean (cachedValue w)) eqn:Eb.
  - injection H as <- <-.
    rewrite parseSpecification_unfold, (cachedValue_files w w2 Hc Hs), Eb.
    reflexivity.
  - rewrite parseWithoutCache_cases in H.
    destruct (fst (parseFromSource w)) as [spec | t] eqn:Ep.
    2:{ destruct (@parseSpecificationCatch_throws JsValue t w) as [t' Ht].
        rewrite Ht in H. discriminate. }
    injection H as <- <-.
    assert (Hsrc : files w2 MCP_SPEC_PATH = files w MCP_SPEC_PATH).
    { rewrite Hs. unfold afterSave, warned, saved.
      destruct (saveFailure spec w); simpl; [reflexivity |].
      now rewrite paths_differ. }
    assert (Hp2 : fst (parseFromSource w2) = Returns spec).
    { rewrite <- Ep. now apply parseFromSource_files. }
    rewrite parseSpecification_unfold.
    destruct (toBoolean (cachedValue w2)) eqn:Eb2.
    + simpl. f_equal.
      rewrite (cachedValue_files (afterSave w spec) w2 Hc Hs) in *.
      unfold afterSave in *.
      destruct (saveFailure spec w) as [j |] eqn:Es.
      * rewrite (cachedValue_files w (warned w j) eq_refl eq_refl) in Eb2.
        congruence.
      * apply saveFailure_none in Es. destruct Es as (_ & Htext & _).
        now apply cachedValue_saved.
    + now apply parseWithoutCache_value.
Qed.

(* ===================================================================== *)
(** ** errorUtils.ts: the numeric part of a code, and formatErrorForCli  *)
(* ===================================================================== *)

(** The number written by a string of decimal digits; leading zeros do not
    count.  [None] when a character is not a digit. *)
Definition readDigits (s : string) : option N :=
  option_map N.of_uint (NilEmpty.uint_of_string s).

(** Below two to the 53 every integer is a double, and the nearest double
    to an integer from there on is not below two to the 53. *)
Lemma nearestDouble_small x :
  (x < 2 ^ 53)%N -> JsString.nearestDouble x = x.
Proof.
  intros Hx. unfold JsString.nearestDouble.
  assert (He : (N.log2 x - 52 = 0)%N).
  { destruct (N.eq_dec x 0) as [-> | Hne]; [reflexivity |].
    assert (Hl : (N.log2 x < 53)%N) by (apply N.log2_lt_pow2; lia).
    lia. }
  rewrite He. reflexivity.
Qed.

Lemma nearestDouble_large x :
  (2 ^ 53 <= x)%N -> (2 ^ 53 <= JsString.nearestDouble x)%N.
Proof.
  intros Hx. unfold JsString.nearestDouble.
  assert (Hpos : (0 < x)%N) by (assert (0 < 2 ^ 53)%N by reflexivity; lia).
  assert (Hl : (53 <= N.log2 x)%N) by (apply N.log2_le_pow2; assumption).
  set (e := (N.log2 x - 52)%N).
  assert (He : (1 <= e)%N) by (unfold e; lia).
  destruct (N.eqb_spec e 0) as [E | _]; [lia |].
  assert (Hq : (2 ^ 52 <= N.shiftr x e)%N).
  { rewrite N.shiftr_div_pow2.
    assert (Hpow : (2 ^ N.log2 x <= x)%N) by (apply N.log2_spec; assumption).
    replace (N.log2 x) with (52 + e)%N in Hpow by (unfold e; lia).
    rewrite N.pow_add_r in Hpow.
    apply N.div_le_lower_bound; [apply N.pow_nonzero; discriminate |].
    lia. }
  assert (H2e : (2 <= 2 ^ e)%N).
  { change 2%N with (2 ^ 1)%N at 1.
    apply N.pow_le_mono_r; [discriminate | exact He]. }
  assert (Hlow : (2 ^ 53 <= N.shiftl (N.shiftr x e) e)%N).
  { rewrite N.shiftl_mul_pow2.
    change (2 ^ 53)%N with (2 ^ 52 * 2)%N.
    apply N.mul_le_mono; assumption. }
  destruct (_ || _).
  - rewrite N.shiftl_mul_pow2 in *. nia.
  - exact Hlow.
Qed.

(** Below two to the 53 the shortest digits of a number are all its
    digits. *)
Lemma shortestFrom_safe n digits tries :
  (n < 2 ^ 53)%N -> forall k, JsString.shortestFrom n digits tries k = n.
Proof.
  intros Hn. induction tries as [| tries IH]; intros k; [reflexivity |].
  cbn [JsString.shortestFrom]. cbv zeta.
  set (p := (10 ^ N.of_nat (digits - k))%N).
  assert (Hp : p <> 0%N) by (apply N.pow_nonzero; discriminate).
  pose proof (N.div_mod n p Hp) as Hdiv.
  pose proof (N.mod_lt n p Hp) as Hmod.
  rewrite (N.mul_comm p) in Hdiv.
  generalize dependent (n / p * p)%N. intros lo Hdiv.
  generalize dependent (n mod p)%N. intros r Hdiv Hmod.
  assert (Hlo : (lo <= n)%N) by lia.
  assert (Hhi : (n < lo + p)%N) by lia.
  rewrite (@nearestDouble_small lo) by lia.
  assert (HokHi : (JsString.nearestDouble (lo + p) =? n)%N = false).
  { apply N.eqb_neq.
    destruct (N.lt_ge_cases (lo + p) (2 ^ 53)) as [Hs | Hl].
    - rewrite nearestDouble_small by exact Hs. lia.
    - apply nearestDouble_large in Hl. lia. }
  rewrite HokHi, andb_false_r.
  destruct (N.eqb_spec lo n) as [E | _]; [exact E | apply IH].
Qed.

Lemma ofNumber_safe n :
  (n < 2 ^ 53)%N -> JsString.ofNumber n = JsString.decimal n.
Proof.
  intros Hn. unfold JsString.ofNumber, JsString.shortest.
  rewrite shortestFrom_safe by exact Hn.
  assert (H21 : (2 ^ 53 < 10 ^ 21)%N) by reflexivity.
  destruct (N.ltb_spec n (10 ^ 21)); [reflexivity | lia].
Qed.

Lemma decimal_digits n :
  JsString.decimal n = NilEmpty.string_of_uint (N.to_uint n).
Proof.
  unfold JsString.decimal, NilZero.string_of_uint.
  destruct n as [| p]; [reflexivity |].
  simpl. pose proof (DecimalPos.Unsigned.to_uint_nonnil p) as H.
  destruct (Pos.to_uint p); [contradiction | reflexivity ..].
Qed.

Lemma readDigits_zeros k s :
  readDigits (JsString.replicate k "0"%char ++ s) = readDigits s.
Proof.
  unfold readDigits. induction k as [| k IH]; [reflexivity |].
  cbn [JsString.replicate append NilEmpty.uint_of_string].
  destruct (NilEmpty.uint_of_string (JsString.replicate k "0"%char ++ s))
    as [d |] eqn:E;
    destruct (NilEmpty.uint_of_string s) as [d' |]; simpl in *;
    try discriminate; try reflexivity.
  exact IH.
Qed.

Lemma readDigits_padded n :
  (n < 2 ^ 53)%N ->
  readDigits (JsString.padStart 3 "0"%char (JsString.ofNumber n)) = Some n.
Proof.
  intros Hn. rewrite (ofNumber_safe Hn).
  unfold JsString.padStart. rewrite readDigits_zeros, decimal_digits.
  unfold readDigits. rewrite NilEmpty.usu. simpl.
  now rewrite DecimalN.Unsigned.of_to.
Qed.

Lemma length_replicate k c : String.length (JsString.replicate k c) = k.
Proof. induction k as [| k IH]; simpl; [reflexivity | now rewrite IH]. Qed.

Lemma length_padStart k c s : k <= String.length (JsString.padStart k c s).
Proof.
  unfold JsString.padStart. rewrite string_length_append, length_replicate.
  lia.
Qed.

Lemma stripPrefix_append p s : Json.stripPrefix p (p ++ s) = Some s.
Proof.
  induction p as [| a p IH]; simpl; [reflexivity |].
  now rewrite Ascii.eqb_refl.
Qed.

(** X1. The number of an error is read back from its code: what follows
    the prefix, the dash and the category in the code is a string of at
    least three digits that denotes the number, for every number that is
    an integer below two to the 53, the integers JavaScript prints with
    all their digits.  So two such errors of the same prefix and category
    have the same code only when they have the same number. *)
Theorem createError_number_round_trip :
  forall prefix category n text d c,
    (n < 2 ^ 53)%N ->
    (exists digits,
        Json.stripPrefix (prefix ++ "-" ++ category)
          (code (createError prefix category n text d c))
        = Some digits
        /\ 3 <= String.length digits
        /\ readDigits digits = Some n)
    /\ (forall m text' d' c',
          (m < 2 ^ 53)%N ->
          code (createError prefix category m text' d' c')
          = code (createError prefix category n text d c) ->
          m = n).
Proof.
  intros prefix category n text d c Hn. split.
  - exists (JsString.padStart 3 "0"%char (JsString.ofNumber n)).
    split; [| split].
    + cbn [code createError].
      replace (prefix ++ "-" ++ category
                 ++ JsString.padStart 3 "0"%char (JsString.ofNumber n))%string
        with ((prefix ++ "-" ++ category)
                ++ JsString.padStart 3 "0"%char (JsString.ofNumber n))%string
        by (rewrite !string_append_assoc; reflexivity).
      apply stripPrefix_append.
    + apply length_padStart.
    + now apply readDigits_padded.
  - intros m text' d' c' Hm H. simpl in H.
    apply append_inj_l in H. injection H as H. apply append_inj_l in H.
    pose proof (readDigits_padded Hm) as Hread. rewrite H in Hread.
    rewrite (readDigits_padded Hn) in Hread. now injection Hread.
Qed.

(** [String(value)], as a template literal prints a value: an array prints
    its items separated by commas, [null] items as nothing; an object
    prints as [[object Object]], and so does each node of a node array; a
    number prints as its literal (exact for a literal in the form
    JavaScript itself prints). *)
Fixpoint toStringValue (v : JsValue) : string :=
  match v with
  | JsNull => "null"
  | JsBool true => "true"
  | JsBool false => "false"
  | JsNumber literal => literal
  | JsString s => s
  | JsArray items =>
      String.concat ","
        (map (fun item => match item with
                          | JsNull => ""
                          | _ => toStringValue item
                          end) items)
  | JsObject _ => "[object Object]"
  | JsNodes first rest =>
      String.concat "," (map (fun _ => "[object Object]") (first :: rest))
  end.

Definition newlineString : string := String Json.newline "".

(** The lines of [Object.entries(details)]. *)
Definition formatDetails (details : Details) : string :=
  fold_left
    (fun text entry =>
       (text ++ newlineString ++ "  " ++ fst entry ++ ": "
          ++ toStringValue (snd entry))%string)
    details
    (newlineString ++ newlineString ++ "Details:")%string.

(** [formatErrorForCli] on an [Error] instance: one with a [code] property
    takes the first branch, where it has neither details nor a cause. *)
Definition formatJsError (e : JsError) : string :=
  match errorCode e with
  | Some c => "ERROR " ++ c ++ ": " ++ errorMessage e
  | None => "ERROR: " ++ errorMessage e
  end.

(** [formatErrorForCli] on a plain-object error. *)
Fixpoint formatAxeError (e : AxeError) : string :=
  match e with
  | mkAxeError code message details cause =>
      ("ERROR " ++ code ++ ": " ++ message)
        ++ match details with
           | Some entries => formatDetails entries
           | None => ""
           end
        ++ match cause with
           | Some (inr a) =>
               newlineString ++ newlineString ++ "Caused by: "
                 ++ formatAxeError a
           | Some (inl err) =>
               newlineString ++ newlineString ++ "Caused by: "
                 ++ formatJsError err
           | None => ""
           end
  end.

Definition formatErrorForCli (error : JsError + AxeError) : string :=
  match error with
  | inl e => formatJsError e
  | inr a => formatAxeError a
  end.

(** [c] is [e] or a cause of [e], of its cause, and so on. *)
Inductive inCauseChain (c : JsError + AxeError)
  : JsError + AxeError -> Prop :=
| inCauseChain_here : inCauseChain c c
| inCauseChain_cause a c' :
    cause a = Some c' -> inCauseChain c c' -> inCauseChain c (inr a).

Lemma formatErrorForCli_cause a c :
  cause a = Some c ->
  exists before,
    formatErrorForCli (inr a)
    = (before ++ "Caused by: " ++ formatErrorForCli c)%string.
Proof.
  destruct a as [k m d cs]. simpl. intros ->.
  exists (("ERROR " ++ k ++ ": " ++ m)
            ++ match d with Some entries => formatDetails entries | None => "" end
            ++ newlineString ++ newlineString)%string.
  destruct c as [err | a']; simpl;
    rewrite !string_append_assoc; reflexivity.
Qed.

(** X2. The text of an error ends with the text of every error of its cause
    chain, each introduced by [Caused by: ]: nothing of a cause, however
    deep, is left out of what the user reads. *)
Theorem formatErrorForCli_ends_with_causes :
  forall c e,
    inCauseChain c e ->
    c = e
    \/ exists before,
         formatErrorForCli e
         = (before ++ "Caused by: " ++ formatErrorForCli c)%string.
Proof.
  intros c e H. induction H as [| a c' Hcause Hchain IH]; [now left |].
  right. destruct (formatErrorForCli_cause a Hcause) as [before Hfmt].
  destruct IH as [-> | [before' IH]].
  - exists before. exact Hfmt.
  - exists (before ++ "Caused by: " ++ before')%string.
    rewrite Hfmt, IH. rewrite !string_append_assoc. reflexivity.
Qed.

(** The function [withErrorHandling] returns: an arrow function written in
    a [return] statement, which has the empty name. *)
Definition wrappedFunction {S Args R} (fn : JsFunction S Args R)
    (errorCreator : N -> string -> option Details -> option JsError
                    -> AxeError)
  : JsFunction S Args R :=
  {| call := withErrorHandling fn errorCreator; name := "" |}.

(** X3. Wrapping a wrapped function hides the first failure: when the
    function throws anything but an [Error] with a code, the inner wrapper
    throws a plain-object error, which the outer wrapper does not recognise
    and replaces by its own, whose cause is only
    [new Error("[object Object]")] and whose details name no function. *)
Theorem withErrorHandling_twice_hides_cause :
  forall (S Args R : Type) (fn : JsFunction S Args R) inner outer
         (args : Args) (s s' : S) (t : Thrown),
    call fn args s = (Throws t, s') ->
    instanceofError t && hasCodeProperty t = false ->
    withErrorHandling (wrappedFunction fn inner) outer args s
    = (Throws (ThrownAxe
                 (outer 999%N "An unexpected error occurred"
                    (Some [("function", JsString "")])
                    (Some (newError "[object Object]")))), s').
Proof.
  intros S Args R fn inner outer args s s' t Hcall Ht.
  unfold withErrorHandling at 1. unfold tryCatch. cbn [call name wrappedFunction].
  unfold withErrorHandling, tryCatch. rewrite Hcall, Ht. reflexivity.
Qed.

(* ===================================================================== *)
(** ** More facts about the syntax-tree walk                             *)
(* ===================================================================== *)

(** The version strings a source file declares, in the order of the text:
    the string literals that initialise a variable named [MCP_VERSION]. *)
Definition declaredVersion (d : VariableDeclaration) : list string :=
  match identifierName d, initializer d with
  | Some name, Some (StringLiteral text) =>
      if String.eqb name "MCP_VERSION" then [text] else []
  | _, _ => []
  end.

Definition declaredVersions (tree : SourceFile) : list string :=
  flat_map (fun node => match node with
                        | VariableStatement declarations =>
                            flat_map declaredVersion declarations
                        | _ => []
                        end) tree.

Lemma last_app_default {A} (l1 l2 : list A) (d : A) :
  last (l1 ++ l2) d = last l2 (last l1 d).
Proof.
  induction l1 as [| a l1 IH]; [reflexivity |].
  destruct l1 as [| b l1].
  - clear IH. simpl. destruct l2 as [| c l2]; [reflexivity |].
    revert c. induction l2 as [| c' l2 IH2]; intros c; [reflexivity |].
    apply IH2.
  - exact IH.
Qed.

Lemma visitDeclaration_declared version d :
  visitDeclaration version d = last (declaredVersion d) version.
Proof.
  unfold visitDeclaration, declaredVersion.
  destruct (identifierName d) as [name |]; [| reflexivity].
  destruct (initializer d) as [[text |] |]; try reflexivity.
  destruct (String.eqb name "MCP_VERSION"); reflexivity.
Qed.

Lemma visitDeclaration_last declarations version :
  fold_left visitDeclaration declarations version
  = last (flat_map declaredVersion declarations) version.
Proof.
  revert version.
  induction declarations as [| d ds IH]; intros version; [reflexivity |].
  cbn [fold_left flat_map]. rewrite IH, last_app_default.
  now rewrite visitDeclaration_declared.
Qed.

Lemma fold_visitNode_version tree spec :
  version (fold_left visitNode tree spec)
  = last (declaredVersions tree) (version spec).
Proof.
  revert spec. induction tree as [| node tree IH]; intros spec;
    [reflexivity |].
  simpl. rewrite IH. unfold declaredVersions at 2. simpl flat_map.
  fold (declaredVersions tree). rewrite last_app_default.
  destruct node as [declarations | interfaceName members jsDoc |]; simpl;
    try reflexivity.
  now rewrite visitDeclaration_last.
Qed.

(** X4. The version of the specification is the last string constant named
    [MCP_VERSION] of the source file, and [1.0.0] when the file declares
    none. *)
Theorem version_is_last_declared :
  forall tree,
    version (walkSourceFile tree) = last (declaredVersions tree) "1.0.0"
    /\ (declaredVersions tree = [] -> version (walkSourceFile tree) = "1.0.0").
Proof.
  intros tree. unfold walkSourceFile.
  rewrite fold_visitNode_version. split; [reflexivity |].
  intros ->. reflexivity.
Qed.

Lemma parseCapabilityMember_append capabilities member :
  parseCapabilityMember capabilities member
  = capabilities ++ parseCapabilityMember [] member.
Proof. destruct member; simpl; [reflexivity | now rewrite app_nil_r]. Qed.

Lemma fold_left_flat_map {A B} (step : list A -> B -> list A)
    (Hstep : forall acc b, step acc b = acc ++ step [] b)
    (l : list B) (acc : list A) :
  fold_left step l acc = acc ++ flat_map (step []) l.
Proof.
  revert acc. induction l as [| b l IH]; intros acc; simpl.
  - now rewrite app_nil_r.
  - rewrite IH, (Hstep acc b). now rewrite app_assoc.
Qed.

(** What one node adds to each list of the specification. *)
Definition contribution (node : Node) : McpSpecification :=
  visitNode initialSpecification node.

Lemma visitNode_contribution spec node :
  operations (visitNode spec node)
  = operations spec ++ operations (contribution node)
  /\ types (visitNode spec node) = types spec ++ types (contribution node)
  /\ capabilities (visitNode spec node)
     = capabilities spec ++ capabilities (contribution node).
Proof.
  unfold contribution.
  destruct node as [declarations | interfaceName members jsDoc |]; simpl;
    rewrite ?app_nil_r; [auto | | auto].
  split; [| split].
  - destruct (String.eqb interfaceName "McpOperations");
      [| now rewrite app_nil_r].
    unfold parseOperationsInterface.
    rewrite (fold_left_flat_map _ parseOperationMember_append members
               (operations spec)).
    now rewrite (fold_left_flat_map _ parseOperationMember_append members []).
  - destruct (JsString.endsWith interfaceName "Type"
              && negb (String.eqb interfaceName "McpType"));
      [| now rewrite app_nil_r].
    destruct (parseTypeInterface interfaceName members jsDoc);
      [reflexivity | now rewrite app_nil_r].
  - destruct (String.eqb interfaceName "McpCapabilities");
      [| now rewrite app_nil_r].
    unfold parseCapabilitiesInterface.
    rewrite (fold_left_flat_map _ parseCapabilityMember_append members
               (capabilities spec)).
    now rewrite (fold_left_flat_map _ parseCapabilityMember_append members []).
Qed.

Lemma fold_visitNode_lists tree spec :
  operations (fold_left visitNode tree spec)
  = operations spec ++ operations (walkSourceFile tree)
  /\ types (fold_left visitNode tree spec)
     = types spec ++ types (walkSourceFile tree)
  /\ capabilities (fold_left visitNode tree spec)
     = capabilities spec ++ capabilities (walkSourceFile tree).
Proof.
  unfold walkSourceFile. revert spec.
  induction tree as [| node tree IH]; intros spec; simpl.
  - now rewrite !app_nil_r.
  - destruct (IH (visitNode spec node)) as (Ho & Ht & Hc).
    destruct (IH (visitNode initialSpecification node)) as (Ho0 & Ht0 & Hc0).
    destruct (visitNode_contribution spec node) as (Ho1 & Ht1 & Hc1).
    rewrite Ho, Ht, Hc, Ho0, Ht0, Hc0, Ho1, Ht1, Hc1.
    unfold contribution. now rewrite !app_assoc.
Qed.

(** X5. Walking two pieces of a source file one after the other gives the
    operations, the types and the capabilities of the first piece followed
    by those of the second, and the version of the second piece when it
    declares one, of the first otherwise: declarations that are repeated
    merge, in the order of the text. *)
Theorem walk_of_concatenation :
  forall first second,
    operations (walkSourceFile (first ++ second))
    = operations (walkSourceFile first) ++ operations (walkSourceFile second)
    /\ types (walkSourceFile (first ++ second))
       = types (walkSourceFile first) ++ types (walkSourceFile second)
    /\ capabilities (walkSourceFile (first ++ second))
       = capabilities (walkSourceFile first)
           ++ capabilities (walkSourceFile second)
    /\ version (walkSourceFile (first ++ second))
       = last (declaredVersions second) (version (walkSourceFile first)).
Proof.
  intros first second. unfold walkSourceFile at 1 4 7 10.
  rewrite fold_left_app.
  destruct (fold_visitNode_lists second
              (fold_left visitNode first initialSpecification))
    as (Ho & Ht & Hc).
  split; [exact Ho |]. split; [exact Ht |]. split; [exact Hc |].
  apply fold_visitNode_version.
Qed.

(** The names of the property signatures among the members of an
    interface, without quotes, in the order of the text. *)
Definition propertyNames (members : list TypeElement) : list string :=
  flat_map (fun member => match member with
                          | PropertySignature nameText _ _ _ =>
                              [JsString.stripQuotes nameText]
                          | OtherTypeElement => []
                          end) members.

(** The same for the property signatures whose type is a type reference. *)
Definition referencePropertyNames (members : list TypeElement)
  : list string :=
  flat_map (fun member => match member with
                          | PropertySignature nameText _
                              (Some (TypeReferenceNode _ _ _)) _ =>
                              [JsString.stripQuotes nameText]
                          | _ => []
                          end) members.

Lemma map_flat_map {A B C} (f : B -> C) (g : A -> list B) (l : list A) :
  map f (flat_map g l) = flat_map (fun a => map f (g a)) l.
Proof.
  induction l as [| a l IH]; simpl; [reflexivity |].
  now rewrite map_app, IH.
Qed.

Lemma flat_map_pointwise {A B} (f g : A -> list B) (l : list A) :
  (forall a, f a = g a) -> flat_map f l = flat_map g l.
Proof.
  intros H. induction l as [| a l IH]; simpl; [reflexivity |].
  now rewrite H, IH.
Qed.

(** X6. An interface yields one operation for each property signature whose
    type is a type reference, and one capability for each property
    signature of any type, in the order of the text and after the entries
    already there; a member of another kind, or an operation member with
    another type, yields nothing. *)
Theorem interface_entries_in_order :
  forall members operations capabilities,
    map op_name (parseOperationsInterface members operations)
    = map op_name operations ++ referencePropertyNames members
    /\ map cap_name (parseCapabilitiesInterface members capabilities)
       = map cap_name capabilities ++ propertyNames members
    /\ (exists added,
           parseOperationsInterface members operations = operations ++ added)
    /\ (exists added,
           parseCapabilitiesInterface members capabilities
           = capabilities ++ added).
Proof.
  intros members operations capabilities.
  unfold parseOperationsInterface, parseCapabilitiesInterface.
  rewrite (fold_left_flat_map _ parseOperationMember_append).
  rewrite (fold_left_flat_map _ parseCapabilityMember_append).
  rewrite !map_app, !map_flat_map.
  split; [| split; [| split; eauto]].
  - f_equal. apply flat_map_pointwise.
    intros [n q [[| | |] |] d |]; reflexivity.
  - f_equal. apply flat_map_pointwise. intros [n q ty d |]; reflexivity.
Qed.

Lemma fields_of_members members :
  map field_name (flat_map (parseFieldMember []) members)
  = propertyNames members.
Proof.
  rewrite map_flat_map. apply flat_map_pointwise.
  intros [n q ty d |]; reflexivity.
Qed.

Lemma parseTypeInterface_none_iff name members jsDoc :
  parseTypeInterface name members jsDoc = None
  <-> propertyNames members = [].
Proof.
  unfold parseTypeInterface.
  rewrite (fold_left_flat_map _ parseFieldMember_append). simpl app.
  pose proof (fields_of_members members) as Hnames.
  destruct (flat_map (parseFieldMember []) members) as [| f fs]; simpl.
  - split; [intros _; now rewrite <- Hnames | reflexivity].
  - split; [discriminate |]. intros H. rewrite H in Hnames. discriminate.
Qed.

Lemma parseTypeInterface_name name members jsDoc t :
  parseTypeInterface name members jsDoc = Some t -> type_name t = name.
Proof.
  unfold parseTypeInterface.
  destruct (fold_left _ members []) as [| f fs]; simpl; [discriminate |].
  now intros [= <-].
Qed.

(** X7. A type interface is dropped exactly when none of its members is a
    property signature; otherwise the type has the name of the interface
    and one field for each property signature, in the order of the text. *)
Theorem type_interface_fields :
  forall name members jsDoc,
    (parseTypeInterface name members jsDoc = None
     <-> propertyNames members = [])
    /\ (forall t,
          parseTypeInterface name members jsDoc = Some t ->
          type_name t = name
          /\ map field_name (type_fields t) = propertyNames members).
Proof.
  intros name members jsDoc. unfold parseTypeInterface.
  rewrite (fold_left_flat_map _ parseFieldMember_append). simpl app.
  pose proof (fields_of_members members) as Hnames.
  destruct (flat_map (parseFieldMember []) members) as [| f fs]; simpl.
  - split.
    + split; [intros _; now rewrite <- Hnames | reflexivity].
    + discriminate.
  - split.
    + split; [discriminate |]. intros H. rewrite H in Hnames. discriminate.
    + intros t [= <-]. split; [reflexivity | exact Hnames].
Qed.

Lemma substring_all s : substring 0 (String.length s) s = s.
Proof. induction s as [| c s IH]; simpl; [reflexivity | now rewrite IH]. Qed.

Lemma substring_after p s :
  substring (String.length p) (String.length s) (p ++ s) = s.
Proof.
  induction p as [| c p IH]; simpl; [apply substring_all | exact IH].
Qed.

Lemma substring_split s :
  forall k, k <= String.length s ->
            s = (substring 0 k s ++ substring k (String.length s - k) s)%string.
Proof.
  induction s as [| c s IH]; intros k Hk.
  - destruct k; reflexivity.
  - destruct k as [| k].
    + simpl. now rewrite substring_all.
    + simpl in *. f_equal. apply IH. lia.
Qed.

(** [endsWith] is what its name says. *)
Lemma endsWith_spec s suffix :
  JsString.endsWith s suffix = true
  <-> exists before, s = (before ++ suffix)%string.
Proof.
  unfold JsString.endsWith. split.
  - intros H. apply andb_prop in H. destruct H as [Hlen Heq].
    apply Nat.leb_le in Hlen. apply String.eqb_eq in Heq.
    exists (substring 0 (String.length s - String.length suffix) s).
    pose proof (substring_split s
                  (k := String.length s - String.length suffix)) as Hs.
    replace (String.length s - (String.length s - String.length suffix))
      with (String.length suffix) in Hs by lia.
    rewrite Heq in Hs. apply Hs. lia.
  - intros [before ->]. rewrite string_length_append.
    apply andb_true_intro. split; [apply Nat.leb_le; lia |].
    replace (String.length before + String.length suffix
             - String.length suffix) with (String.length before) by lia.
    rewrite substring_after. apply String.eqb_refl.
Qed.

(** X8. An interface adds a type exactly when its name is some text followed
    by [Type], is not [McpType], and it has a property signature; the bare
    name [Type] counts.  The type is added at the end of the list. *)
Theorem type_definition_by_suffix :
  forall spec name members jsDoc,
    (types (visitNode spec (InterfaceDeclaration name members jsDoc))
     <> types spec
     <-> (exists before, name = (before ++ "Type")%string)
         /\ name <> "McpType"
         /\ propertyNames members <> [])
    /\ (types (visitNode spec (InterfaceDeclaration name members jsDoc))
        = types spec
        \/ exists t,
             types (visitNode spec (InterfaceDeclaration name members jsDoc))
             = types spec ++ [t] /\ type_name t = name).
Proof.
  intros spec name members jsDoc. cbn [visitNode types].
  pose proof (parseTypeInterface_none_iff name members jsDoc) as Hdrop.
  pose proof (endsWith_spec name "Type") as Hends.
  destruct (JsString.endsWith name "Type") eqn:Ee; simpl.
  - destruct (String.eqb_spec name "McpType") as [Hm | Hm]; simpl.
    + split; [| now left].
      split; [intros H; now contradiction H | intros (_ & H & _); contradiction].
    + destruct (parseTypeInterface name members jsDoc) as [t |] eqn:Et.
      * split.
        -- split.
           ++ intros _. split; [now apply Hends |]. split; [exact Hm |].
              intros Hn. apply Hdrop in Hn. discriminate.
           ++ intros _ H. apply (f_equal (@List.length _)) in H.
              rewrite length_app in H. simpl in H. lia.
        -- right. exists t. split; [reflexivity |].
           eapply parseTypeInterface_name; exact Et.
      * split; [| now left].
        split; [intros H; now contradiction H |].
        intros (_ & _ & H). contradiction H. now apply Hdrop.
  - split; [| now left].
    split; [intros H; now contradiction H |].
    intros (H & _). apply Hends in H. discriminate.
Qed.

(** X9. An interface declaration changes at most one of the three lists of
    the specification, and never the version; a variable statement changes
    nothing but the version; any other node changes nothing. *)
Theorem node_roles_are_exclusive :
  forall spec node,
    match node with
    | InterfaceDeclaration _ _ _ =>
        version (visitNode spec node) = version spec
        /\ ((types (visitNode spec node) = types spec
             /\ capabilities (visitNode spec node) = capabilities spec)
            \/ (operations (visitNode spec node) = operations spec
                /\ capabilities (visitNode spec node) = capabilities spec)
            \/ (operations (visitNode spec node) = operations spec
                /\ types (visitNode spec node) = types spec))
    | VariableStatement _ =>
        operations (visitNode spec node) = operations spec
        /\ types (visitNode spec node) = types spec
        /\ capabilities (visitNode spec node) = capabilities spec
    | OtherNode => visitNode spec node = spec
    end.
Proof.
  intros spec [declarations | name members jsDoc |]; cbn [visitNode];
    [repeat split | | reflexivity].
  split; [reflexivity |]. cbn [operations types capabilities].
  destruct (String.eqb_spec name "McpOperations") as [-> | Hops].
  - left. split; reflexivity.
  - destruct (String.eqb_spec name "McpCapabilities") as [-> | Hcaps].
    + right. right. split; reflexivity.
    + right. left. split; reflexivity.
Qed.

(* ===================================================================== *)
(** ** More facts about validation                                       *)
(* ===================================================================== *)

Lemma checkRequiredOperations_returns spec required :
  checkRequiredOperations spec required = Returns tt ->
  forall x, In x required -> hasOperation spec x = true.
Proof.
  induction required as [| r required IH]; simpl; [contradiction |].
  destruct (hasOperation spec r) eqn:Er; simpl; [| discriminate].
  intros H x [<- | Hx]; [exact Er | now apply IH].
Qed.

(** X10. Validation accepts a specification exactly when it has an
    operation, a type, a capability and every required operation; whatever
    it throws is parser error 2, 3, 4 or 5, with the path of the schema and
    without a cause. *)
Theorem validateSpecification_accepts_iff :
  forall spec,
    (validateSpecification spec = Returns tt
     <-> operations spec <> []
         /\ types spec <> []
         /\ (forall r, In r requiredOperations -> hasOperation spec r = true)
         /\ capabilities spec <> [])
    /\ (forall t,
          validateSpecification spec = Throws t ->
          exists n text,
            t = ThrownAxe (createParserError n text
                             (Some [("path", JsString MCP_SPEC_PATH)]) None)
            /\ In n [2; 3; 4; 5]%N).
Proof.
  intros spec. unfold validateSpecification. rewrite !length_eqb_0.
  assert (Hreq : forall required t,
             checkRequiredOperations spec required = Throws t ->
             t = ThrownAxe (createParserError 4
                   ("MCP specification is missing required operation: "
                      ++ match find (fun r => negb (hasOperation spec r))
                                    required with
                         | Some r => r
                         | None => ""
                         end)
                   (Some [("path", JsString MCP_SPEC_PATH)]) None)).
  { induction required as [| r required IH]; simpl; [discriminate |].
    intros t. destruct (negb (hasOperation spec r)).
    - now intros [= <-].
    - apply IH. }
  destruct (operations spec) as [| op ops].
  { split.
    - split; [discriminate | intros (H & _); now contradiction H].
    - intros t [= <-]. do 2 eexists. split; [reflexivity | simpl; auto]. }
  destruct (types spec) as [| ty tys].
  { split.
    - split; [discriminate | intros (_ & H & _); now contradiction H].
    - intros t [= <-]. do 2 eexists. split; [reflexivity | simpl; auto]. }
  destruct (checkRequiredOperations spec requiredOperations) as [[] | t0] eqn:E.
  - destruct (capabilities spec) as [| cap caps].
    + split.
      * split; [discriminate | intros (_ & _ & _ & H); now contradiction H].
      * intros t [= <-]. do 2 eexists.
        split; [reflexivity | simpl; auto].
    + split; [| discriminate].
      split; [| reflexivity]. intros _.
      split; [discriminate |]. split; [discriminate |].
      split; [| discriminate].
      now apply checkRequiredOperations_returns.
  - split.
    + split; [discriminate |]. intros (_ & _ & H & _).
      rewrite (checkRequiredOperations_all_present spec requiredOperations H)
        in E. discriminate.
    + intros t [= <-]. apply Hreq in E. subst t0.
      do 2 eexists. split; [reflexivity | simpl; auto].
Qed.

Lemma hasOperation_names spec r :
  hasOperation spec r
  = existsb (fun n => String.eqb n r) (map op_name (operations spec)).
Proof.
  unfold hasOperation. induction (operations spec) as [| op ops IH];
    simpl; [reflexivity | now rewrite IH].
Qed.

Lemma checkRequiredOperations_names spec spec' required :
  map op_name (operations spec) = map op_name (operations spec') ->
  checkRequiredOperations spec required
  = checkRequiredOperations spec' required.
Proof.
  intros H. induction required as [| r required IH]; simpl; [reflexivity |].
  rewrite !hasOperation_names, H, IH. reflexivity.
Qed.

(** X11. Validation looks at the names of the operations and at whether
    there is a type and a capability, and at nothing else: two
    specifications that agree on these are accepted or refused alike, with
    the same error.  So an operation marked optional counts as present,
    and so does one whose input or output type is not among the types. *)
Theorem validation_looks_at_names_only :
  forall spec spec',
    map op_name (operations spec) = map op_name (operations spec') ->
    (types spec = [] <-> types spec' = []) ->
    (capabilities spec = [] <-> capabilities spec' = []) ->
    validateSpecification spec = validateSpecification spec'.
Proof.
  intros spec spec' Hnames Htypes Hcaps.
  unfold validateSpecification. rewrite !length_eqb_0.
  rewrite (checkRequiredOperations_names spec spec' _ Hnames).
  assert (Hops : operations spec = [] <-> operations spec' = []).
  { split; intros H; rewrite H in Hnames.
    - symmetry in Hnames. now apply map_eq_nil in Hnames.
    - now apply map_eq_nil in Hnames. }
  destruct (operations spec), (operations spec');
    try reflexivity;
    try (exfalso; destruct Hops as [H1 H2];
         (discriminate (H1 eq_refl) || discriminate (H2 eq_refl))).
  destruct (types spec), (types spec');
    try reflexivity;
    try (exfalso; destruct Htypes as [H1 H2];
         (discriminate (H1 eq_refl) || discriminate (H2 eq_refl))).
  destruct (checkRequiredOperations spec' requiredOperations);
    [| reflexivity].
  destruct (capabilities spec), (capabilities spec');
    try reflexivity;
    exfalso; destruct Hcaps as [H1 H2];
    (discriminate (H1 eq_refl) || discriminate (H2 eq_refl)).
Qed.

(* ===================================================================== *)
(** ** Names and descriptions                                            *)
(* ===================================================================== *)

(** No character of the string is a quote. *)
Definition quoteFree (s : string) : Prop :=
  forall c, In c (list_ascii_of_string s) -> JsString.isQuote c = false.

Lemma stripQuotes_quoteFree s : quoteFree (JsString.stripQuotes s).
Proof.
  unfold quoteFree. induction s as [| a s IH]; simpl; [contradiction |].
  destruct (JsString.isQuote a) eqn:E; [exact IH |].
  simpl. intros c [<- | Hc]; [exact E | now apply IH].
Qed.

(** A description that is not the empty string: a string with at least one
    character, or a node array. *)
Definition notEmpty (d : Description) : Prop :=
  match d with
  | Text s => s <> ""
  | Nodes _ _ => True
  end.

Lemma orElse_nonempty a dflt : dflt <> "" -> notEmpty (orElse a dflt).
Proof.
  intros H. unfold orElse. destruct a as [[s | first rest] |]; simpl;
    [| trivial | exact H].
  destruct (String.eqb_spec s ""); assumption.
Qed.

Lemma append_nonempty_r (a b : string) : b <> "" -> (a ++ b)%string <> "".
Proof.
  intros Hb H. apply Hb. destruct a; [exact H | discriminate].
Qed.

(** An entry with a name without quotes and a description that is not
    empty. *)
Definition wellLabelled (name : string) (description : Description) : Prop :=
  quoteFree name /\ notEmpty description.

Lemma walkSourceFile_flat_map tree :
  operations (walkSourceFile tree)
  = flat_map (fun node => operations (contribution node)) tree
  /\ types (walkSourceFile tree)
     = flat_map (fun node => types (contribution node)) tree
  /\ capabilities (walkSourceFile tree)
     = flat_map (fun node => capabilities (contribution node)) tree.
Proof.
  induction tree as [| node tree (IHo & IHt & IHc)]; [easy |].
  change (walkSourceFile (node :: tree))
    with (fold_left visitNode tree (visitNode initialSpecification node)).
  destruct (fold_visitNode_lists tree (visitNode initialSpecification node))
    as (Ho & Ht & Hc).
  rewrite Ho, Ht, Hc, IHo, IHt, IHc. easy.
Qed.

(** X12. In the specification built from any source file, the name of
    every operation, capability and field is free of quote characters, and
    no description is the empty string, the descriptions of the types
    included: a member written with a quoted name is known by the bare
    name, a missing or empty JSDoc text is replaced by the default text,
    and a comment with inline tags is kept as the node array it is. *)
Theorem entries_are_well_labelled :
  forall tree,
    Forall (fun op => wellLabelled (op_name op) (op_description op))
           (operations (walkSourceFile tree))
    /\ Forall (fun c => wellLabelled (cap_name c) (cap_description c))
              (capabilities (walkSourceFile tree))
    /\ Forall (fun t =>
                 notEmpty (type_description t)
                 /\ Forall (fun f => wellLabelled (field_name f)
                                                  (field_description f))
                           (type_fields t))
              (types (walkSourceFile tree)).
Proof.
  intros tree.
  destruct (walkSourceFile_flat_map tree) as (-> & -> & ->).
  assert (Hop : forall members,
             Forall (fun op => wellLabelled (op_name op) (op_description op))
                    (flat_map (parseOperationMember []) members)).
  { intros members. apply Forall_flat_map, Forall_forall.
    intros [n q [[| | |] |] d |] _; simpl; try apply Forall_nil.
    apply Forall_cons; [| apply Forall_nil].
    split; [apply stripQuotes_quoteFree |].
    apply orElse_nonempty. discriminate. }
  assert (Hcap : forall members,
             Forall (fun c => wellLabelled (cap_name c) (cap_description c))
                    (flat_map (parseCapabilityMember []) members)).
  { intros members. apply Forall_flat_map, Forall_forall.
    intros [n q ty d |] _; simpl; try apply Forall_nil.
    apply Forall_cons; [| apply Forall_nil].
    split; [apply stripQuotes_quoteFree |].
    apply orElse_nonempty. discriminate. }
  assert (Hfield : forall members,
             Forall (fun f => wellLabelled (field_name f)
                                           (field_description f))
                    (flat_map (parseFieldMember []) members)).
  { intros members. apply Forall_flat_map, Forall_forall.
    intros [n q ty d |] _; simpl; try apply Forall_nil.
    apply Forall_cons; [| apply Forall_nil].
    split; [apply stripQuotes_quoteFree |].
    apply orElse_nonempty, append_nonempty_r. discriminate. }
  split; [| split]; apply Forall_flat_map, Forall_forall;
    intros [declarations | name members jsDoc |] _; unfold contribution;
    cbn [visitNode operations capabilities types initialSpecification];
    try apply Forall_nil.
  - destruct (String.eqb name "McpOperations"); [| constructor].
    unfold parseOperationsInterface.
    rewrite (fold_left_flat_map _ parseOperationMember_append). apply Hop.
  - destruct (String.eqb name "McpCapabilities"); [| constructor].
    unfold parseCapabilitiesInterface.
    rewrite (fold_left_flat_map _ parseCapabilityMember_append). apply Hcap.
  - destruct (JsString.endsWith name "Type"
              && negb (String.eqb name "McpType")); [| constructor].
    unfold parseTypeInterface.
    rewrite (fold_left_flat_map _ parseFieldMember_append). simpl app.
    specialize (Hfield members).
    destruct (flat_map (parseFieldMember []) members) as [| f fs];
      simpl; [apply Forall_nil |].
    apply Forall_cons; [| apply Forall_nil].
    simpl. split; [| exact Hfield].
    apply orElse_nonempty. discriminate.
Qed.

(* ===================================================================== *)
(** ** More facts about the cache and the entry point                    *)
(* ===================================================================== *)

Lemma cache_path_refl :
  String.eqb MCP_SPEC_CACHE_PATH MCP_SPEC_CACHE_PATH = true.
Proof. apply String.eqb_refl. Qed.

Lemma cachedValue_after_save w spec :
  Json.hasNodes (specificationValue spec) = false ->
  cachedValue (saved w spec)
  = match files w MCP_SPEC_PATH with
    | Some s =>
        if (now w <=? mtime s)%Z then JsNull
        else match files w MCP_SPEC_CACHE_PATH with
             | Some old =>
                 match readError old with
                 | Some _ => JsNull
                 | None => specificationValue spec
                 end
             | None => specificationValue spec
             end
    | None => JsNull
    end.
Proof.
  intros Htext. unfold cachedValue, saved. cbn [files].
  rewrite cache_path_refl, paths_differ.
  destruct (files w MCP_SPEC_PATH) as [s |]; [| reflexivity].
  unfold writtenFile. cbn [mtime readError content].
  destruct (now w <=? mtime s)%Z; [reflexivity |].
  rewrite (parse_stringify_specification _ Htext).
  destruct (files w MCP_SPEC_CACHE_PATH) as [old |]; [| reflexivity].
  destruct (readError old); reflexivity.
Qed.

(** X13. Saving and then loading: when saving succeeds, the cache answers
    with the specification that was saved if the clock is past the time of
    the source file and the cache file can be read; it answers [null], a
    miss, when the clock is not past the time of the source file, although
    the file was written an instant ago. *)
Theorem save_then_load :
  forall w spec s,
    saveFailure spec w = None ->
    files w MCP_SPEC_PATH = Some s ->
    ((now w <= mtime s)%Z ->
     loadFromCache (snd (cacheSpecification spec w))
     = (Returns JsNull, snd (cacheSpecification spec w)))
    /\ ((mtime s < now w)%Z ->
        (forall c, files w MCP_SPEC_CACHE_PATH = Some c ->
                   readError c = None) ->
        loadFromCache (snd (cacheSpecification spec w))
        = (Returns (specificationValue spec),
           snd (cacheSpecification spec w))).
Proof.
  intros w spec s Hsave Hsrc.
  rewrite (cacheSpecification_success spec w Hsave). cbn [snd].
  destruct (@saveFailure_none spec w Hsave) as (_ & Htext & _).
  rewrite loadFromCache_cachedValue, (@cachedValue_after_save w spec Htext),
    Hsrc.
  split.
  - intros Hle. apply Z.leb_le in Hle. rewrite Hle. reflexivity.
  - intros Hlt Hread. apply Z.leb_gt in Hlt. rewrite Hlt.
    destruct (files w MCP_SPEC_CACHE_PATH) as [c |]; [| reflexivity].
    rewrite (Hread c eq_refl). reflexivity.
Qed.

(** X14. Saving never throws and changes no file but the cache file.
    When [fs.mkdir] fails, or when the specification holds a node array,
    on which [JSON.stringify] throws, [fs.writeFile] is not reached: no
    file changes at all, whatever the file system would allow, and the
    failure is one warning on the console.  When saving succeeds nothing is
    written on the console and the cache file holds the printed
    specification, stamped with the time of the write. *)
Theorem cacheSpecification_footprint :
  forall spec w,
    fst (cacheSpecification spec w) = Returns tt
    /\ (forall p, String.eqb p MCP_SPEC_CACHE_PATH = false ->
                  files (snd (cacheSpecification spec w)) p = files w p)
    /\ (forall e,
          mkdirFailure w = Some e
          \/ (mkdirFailure w = None
              /\ Json.hasNodes (specificationValue spec) = true
              /\ e = circularError) ->
          files (snd (cacheSpecification spec w)) = files w
          /\ console (snd (cacheSpecification spec w))
             = console w
                 ++ [("Failed to cache MCP specification:", ThrownError e)])
    /\ (saveFailure spec w = None ->
        console (snd (cacheSpecification spec w)) = console w
        /\ files (snd (cacheSpecification spec w)) MCP_SPEC_CACHE_PATH
           = Some {| mtime := now w;
                     content := Json.stringify (specificationValue spec);
                     readError :=
                       match files w MCP_SPEC_CACHE_PATH with
                       | Some old => readError old
                       | None => None
                       end |}).
Proof.
  intros spec w. rewrite cacheSpecification_afterSave. cbn [fst snd].
  unfold afterSave.
  split; [reflexivity |]. split; [| split].
  - intros p Hp. destruct (saveFailure spec w); [reflexivity |].
    unfold saved. cbn [files]. now rewrite Hp.
  - intros e H.
    assert (Hs : saveFailure spec w = Some e).
    { unfold saveFailure. destruct H as [-> | (-> & -> & ->)]; reflexivity. }
    rewrite Hs. split; reflexivity.
  - intros Hs. rewrite Hs. split; [reflexivity |].
    unfold saved. cbn [files]. now rewrite cache_path_refl.
Qed.

Lemma parseWithoutCache_throws w t w' :
  parseWithoutCache w = (Throws t, w') ->
  w' = w
  /\ exists n text c,
       t = ThrownAxe (createParserError n text
                        (Some [("path", JsString MCP_SPEC_PATH)]) c).
Proof.
  rewrite parseWithoutCache_cases, parseFromSource_cases.
  destruct (fst (fs_readFile MCP_SPEC_PATH w)) as [text | t0] eqn:Er.
  - destruct (validateSpecification (specificationOf text)) eqn:Ev;
      [discriminate |].
    apply validateSpecification_throws in Ev.
    destruct Ev as (n & text' & -> & _). simpl. unfold throw.
    intros [= <- <-]. split; [reflexivity | eauto].
  - apply fs_readFile_throws in Er. destruct Er as [e ->].
    simpl. unfold throw. intros [= <- <-]. split; [reflexivity | eauto].
Qed.

(** X15. [parseSpecification] leaves every file but the cache file as it
    found it, the source file in particular; when it throws, and when it
    is served from the cache, it leaves the whole world as it found it: a
    specification that fails validation is never saved. *)
Theorem parseSpecification_footprint :
  forall w,
    (forall p, String.eqb p MCP_SPEC_CACHE_PATH = false ->
               files (snd (parseSpecification w)) p = files w p)
    /\ (forall t w', parseSpecification w = (Throws t, w') -> w' = w)
    /\ (toBoolean (cachedValue w) = true -> snd (parseSpecification w) = w).
Proof.
  intros w. rewrite parseSpecification_unfold.
  destruct (toBoolean (cachedValue w)).
  - split; [reflexivity |]. split; [discriminate | reflexivity].
  - split; [| split; [| discriminate]].
    + intros p Hp. rewrite parseWithoutCache_cases.
      destruct (fst (parseFromSource w)) as [spec | t].
      * cbn [snd]. unfold afterSave, warned, saved.
        destruct (saveFailure spec w); cbn [files]; [reflexivity |].
        now rewrite Hp.
      * destruct (@parseSpecificationCatch_throws JsValue t w) as [t' ->].
        reflexivity.
    + intros t w' H. now apply parseWithoutCache_throws in H.
Qed.

Lemma validateSpecification_returns spec :
  validateSpecification spec = Returns tt ->
  operations spec <> []
  /\ types spec <> []
  /\ (forall r, In r requiredOperations -> hasOperation spec r = true)
  /\ capabilities spec <> [].
Proof.
  unfold validateSpecification. rewrite !length_eqb_0.
  destruct (operations spec); [discriminate |].
  destruct (types spec); [discriminate |].
  destruct (checkRequiredOperations spec requiredOperations) as [[] |] eqn:E;
    [| discriminate].
  destruct (capabilities spec); [discriminate |]. intros _.
  split; [discriminate |]. split; [discriminate |].
  split; [| discriminate]. now apply checkRequiredOperations_returns.
Qed.

Lemma parseFromSource_valid w spec :
  fst (parseFromSource w) = Returns spec ->
  validateSpecification spec = Returns tt.
Proof.
  rewrite parseFromSource_cases.
  destruct (fst (fs_readFile MCP_SPEC_PATH w)) as [text |]; [| discriminate].
  destruct (validateSpecification (specificationOf text)) as [[] |] eqn:E;
    [| discriminate].
  now intros [= <-].
Qed.

(** X16. When the cache is missed, what [parseSpecification] returns is the
    object of a specification that passed validation: it has an operation,
    a type, a capability and every required operation. *)
Theorem fresh_parse_returns_valid_specification :
  forall w v w',
    toBoolean (cachedValue w) = false ->
    parseSpecification w = (Returns v, w') ->
    exists spec,
      v = specificationValue spec
      /\ validateSpecification spec = Returns tt
      /\ operations spec <> []
      /\ types spec <> []
      /\ (forall r, In r requiredOperations -> hasOperation spec r = true)
      /\ capabilities spec <> [].
Proof.
  intros w v w' Hmiss. rewrite parseSpecification_unfold, Hmiss.
  rewrite parseWithoutCache_cases.
  destruct (fst (parseFromSource w)) as [spec | t] eqn:Ep.
  - intros [= <- <-]. exists spec. split; [reflexivity |].
    pose proof (parseFromSource_valid w Ep) as Hv.
    split; [exact Hv |]. now apply validateSpecification_returns.
  - destruct (@parseSpecificationCatch_throws JsValue t w) as [t' ->].
    discriminate.
Qed.

(** X17. What [parseSpecification] writes to the cache file is what it
    returns: after a call that returns, the cache file is the one that was
    there, or it holds the printed form of the value returned, stamped with
    the clock, and reading that text gives the value back. *)
Theorem cache_holds_what_was_returned :
  forall w v w',
    parseSpecification w = (Returns v, w') ->
    files w' MCP_SPEC_CACHE_PATH = files w MCP_SPEC_CACHE_PATH
    \/ exists c,
         files w' MCP_SPEC_CACHE_PATH = Some c
         /\ content c = Json.stringify v
         /\ mtime c = now w
         /\ Json.parse (content c) = Some v.
Proof.
  intros w v w'. rewrite parseSpecification_unfold.
  destruct (toBoolean (cachedValue w)).
  - intros [= <- <-]. now left.
  - rewrite parseWithoutCache_cases.
    destruct (fst (parseFromSource w)) as [spec | t].
    + intros [= <- <-]. unfold afterSave.
      destruct (saveFailure spec w) eqn:Es; [now left |]. right.
      apply saveFailure_none in Es. destruct Es as (_ & Htext & _).
      unfold saved. cbn [files]. rewrite cache_path_refl.
      eexists. split; [reflexivity |]. cbn [content mtime writtenFile].
      split; [reflexivity |]. split; [reflexivity |].
      now apply parse_stringify_specification.
    + destruct (@parseSpecificationCatch_throws JsValue t w) as [t' ->].
      discriminate.
Qed.

(** X18. What the user reads when [parseSpecification] fails: the text of
    the error starts with [ERROR] and the parser prefix, gives the message,
    the path of the schema as its only detail and, when there is a cause,
    the text of the cause. *)
Theorem parse_failure_as_shown :
  forall w t w',
    parseSpecification w = (Throws t, w') ->
    exists e,
      t = ThrownAxe e
      /\ JsString.startsWith (code e) parserPrefix = true
      /\ formatErrorForCli (inr e)
         = ("ERROR " ++ code e ++ ": " ++ message e
              ++ newlineString ++ newlineString ++ "Details:"
              ++ newlineString ++ "  path: " ++ MCP_SPEC_PATH
              ++ match cause e with
                 | Some c =>
                     newlineString ++ newlineString ++ "Caused by: "
                       ++ formatErrorForCli c
                 | None => ""
                 end)%string.
Proof.
  intros w t w'. rewrite parseSpecification_unfold.
  destruct (toBoolean (cachedValue w)); [discriminate |].
  intros H. apply parseWithoutCache_throws in H.
  destruct H as (_ & n & text & c & ->).
  eexists. split; [reflexivity |].
  split; [apply createParserError_prefix |].
  cbn [formatErrorForCli formatAxeError createParserError code message cause
       formatDetails fold_left fst snd toStringValue].
  rewrite !string_append_assoc. cbn [append].
  destruct c as [[err | a] |]; cbn [formatErrorForCli];
    rewrite ?string_append_assoc; reflexivity.
Qed.

End Parser.

(* ===================================================================== *)
(** ** A schema, its worlds, and the theorems at work                    *)
(* ===================================================================== *)

(** The source text of a small schema. *)
Definition widgetText : string :=
"export const MCP_VERSION = '2.1.0';
interface McpOperations {
  /** Reads one widget. */
  Get: Operation<GetRequest, WidgetType>;
  List: Operation<ListRequest, WidgetList>;
  Create: Operation<CreateRequest, WidgetType>;
  Update?: Operation<UpdateRequest>;
  'Delete': Operation;
}
interface WidgetType {
  id: string;
  label: string | null;
  tags?: Array<string>;
}
interface McpCapabilities {
  Streaming?: boolean;
}".

(** The same text followed by a line that holds a closing brace: a syntax
    error, which the compiler reports and passes over. *)
Definition brokenText : string :=
  (widgetText ++ String Json.newline "}")%string.

Definition reference (name : string) : TypeNode :=
  TypeReferenceNode name name None.

Definition keyword (name : string) : TypeNode := OtherTypeNode name.

Definition operationMembers : list TypeElement :=
  [PropertySignature "Get" None
     (Some (TypeReferenceNode "Operation<GetRequest, WidgetType>" "Operation"
              (Some [reference "GetRequest"; reference "WidgetType"])))
     [JSDoc (Some (Text "Reads one widget."))];
   PropertySignature "List" None
     (Some (TypeReferenceNode "Operation<ListRequest, WidgetList>" "Operation"
              (Some [reference "ListRequest"; reference "WidgetList"])))
     [];
   PropertySignature "Create" None
     (Some (TypeReferenceNode "Operation<CreateRequest, WidgetType>"
              "Operation"
              (Some [reference "CreateRequest"; reference "WidgetType"])))
     [];
   PropertySignature "Update" (Some QuestionTokenNode)
     (Some (TypeReferenceNode "Operation<UpdateRequest>" "Operation"
              (Some [reference "UpdateRequest"])))
     [];
   PropertySignature "'Delete'" None
     (Some (TypeReferenceNode "Operation" "Operation" None))
     []].

Definition widgetMembers : list TypeElement :=
  [PropertySignature "id" None (Some (keyword "string")) [];
   PropertySignature "label" None
     (Some (UnionTypeNode "string | null"
              [keyword "string"; keyword "null"]))
     [];
   PropertySignature "tags" (Some QuestionTokenNode)
     (Some (TypeReferenceNode "Array<string>" "Array"
              (Some [keyword "string"])))
     []].

Definition capabilityMembers : list TypeElement :=
  [PropertySignature "Streaming" (Some QuestionTokenNode)
     (Some (keyword "boolean")) []].

(** The tree of [widgetText]; its last child is the end-of-file token. *)
Definition widgetSource : SourceFile :=
  [VariableStatement
     [{| identifierName := Some "MCP_VERSION";
         initializer := Some (StringLiteral "2.1.0") |}];
   InterfaceDeclaration "McpOperations" operationMembers [];
   InterfaceDeclaration "WidgetType" widgetMembers [];
   InterfaceDeclaration "McpCapabilities" capabilityMembers [];
   OtherNode].

(** The same schema without the [Delete] operation. *)
Definition noDeleteSource : SourceFile :=
  [InterfaceDeclaration "McpOperations" (removelast operationMembers) [];
   InterfaceDeclaration "WidgetType" widgetMembers [];
   InterfaceDeclaration "McpCapabilities" capabilityMembers []].

(** A schema without the [Delete] operation and without any type. *)
Definition noDeleteNoTypeSource : SourceFile :=
  [InterfaceDeclaration "McpOperations" (removelast operationMembers) [];
   InterfaceDeclaration "McpCapabilities" capabilityMembers []].

Definition widgetSpec : McpSpecification :=
  {| version := "2.1.0";
     operations :=
       [mkMcpOperation "Get" (Text "Reads one widget.") "GetRequest"
          "WidgetType" true;
        mkMcpOperation "List" (Text "MCP List operation") "ListRequest"
          "WidgetList" true;
        mkMcpOperation "Create" (Text "MCP Create operation") "CreateRequest"
          "WidgetType" true;
        mkMcpOperation "Update" (Text "MCP Update operation") "UpdateRequest"
          "any" false;
        mkMcpOperation "Delete" (Text "MCP Delete operation") "any" "any"
          true];
     types :=
       [mkMcpType "WidgetType" (Text "MCP WidgetType")
          [mkMcpField "id" "string" true false (Text "id field");
           mkMcpField "label" "string" true false (Text "label field");
           mkMcpField "tags" "string" false true (Text "tags field")]];
     capabilities :=
       [mkMcpCapability "Streaming" (Text "MCP Streaming capability")
          false] |}.

(** The member [Get] under the comment
    [Reads one widget, see {@link WidgetType}.]: the comment has an inline
    tag, so it is a node array. *)
Definition linkedMember : TypeElement :=
  PropertySignature "Get" None
    (Some (TypeReferenceNode "Operation<GetRequest, WidgetType>" "Operation"
             (Some [reference "GetRequest"; reference "WidgetType"])))
    [JSDoc (Some (Nodes (JSDocText "Reads one widget, see ")
                        [JSDocLink (Some "WidgetType") "";
                         JSDocText "."]))].

(** [widgetSource] with [linkedMember] for its first operation. *)
Definition linkedSource : SourceFile :=
  [InterfaceDeclaration "McpOperations"
     (linkedMember :: tl operationMembers) [];
   InterfaceDeclaration "WidgetType" widgetMembers [];
   InterfaceDeclaration "McpCapabilities" capabilityMembers [];
   OtherNode].

Definition exampleDir : string := "/axe/schemas/mcp-spec".

(** A stand-in for the compiler's parser, by table: the tree of
    [widgetText]; the same tree and one diagnostic for [brokenText]; an
    expression statement and the end-of-file token for the text [stub].
    Any other text is read as an empty file, which holds the end-of-file
    token only; no such text is used below. *)
Definition exampleCompiler (fileName sourceText : string) : ParsedFile :=
  if String.eqb sourceText widgetText then
    {| children := widgetSource; parseDiagnostics := [] |}
  else if String.eqb sourceText brokenText then
    {| children := widgetSource;
       parseDiagnostics :=
         [{| diagnosticCode := 1128;
             messageText := "Declaration or statement expected." |}] |}
  else if String.eqb sourceText "stub" then
    {| children := [OtherNode; OtherNode]; parseDiagnostics := [] |}
  else
    {| children := [OtherNode]; parseDiagnostics := [] |}.

Definition exampleParse : Eff World JsValue :=
  parseSpecification "AXE" "1" exampleDir exampleCompiler.

Definition sourceFileOf (text : string) : File :=
  {| mtime := 100; content := text; readError := None |}.

(** A world with a source file and nothing else; a millisecond passes
    after each write. *)
Definition sourceOnly (text : string) : World :=
  {| files := fun p => if String.eqb p (MCP_SPEC_PATH exampleDir)
                       then Some (sourceFileOf text) else None;
     mkdirFailure := None;
     writeFailure := None;
     now := 200;
     delays := fun _ => 1%N;
     console := [] |}.

(** A world whose cache file, stamped [stamp], holds [cached], beside a
    source file with the given text. *)
Definition withCacheText (text : string) (stamp : Z) (cached : string)
  : World :=
  {| files := fun p =>
       if String.eqb p (MCP_SPEC_PATH exampleDir)
       then Some (sourceFileOf text)
       else if String.eqb p (MCP_SPEC_CACHE_PATH exampleDir)
       then Some {| mtime := stamp; content := cached; readError := None |}
       else None;
     mkdirFailure := None;
     writeFailure := None;
     now := 200;
     delays := fun _ => 1%N;
     console := [] |}.

(** A world whose cache file, stamped [stamp], holds [widgetSpec]. *)
Definition withCache (text : string) (stamp : Z) : World :=
  withCacheText text stamp (Json.stringify (specificationValue widgetSpec)).

(** A world where nothing can be written. *)
Definition readOnly (text : string) : World :=
  {| files := files (sourceOnly text);
     mkdirFailure := None;
     writeFailure :=
       Some {| errorMessage := "EROFS: read-only file system, open";
               errorCode := Some "EROFS" |};
     now := 200;
     delays := fun _ => 1%N;
     console := [] |}.

(** A world without any file. *)
Definition emptyWorld : World :=
  {| files := fun _ => None;
     mkdirFailure := None;
     writeFailure := None;
     now := 200;
     delays := fun _ => 1%N;
     console := [] |}.


Example walk_widgetSource : walkSourceFile widgetSource = widgetSpec.
Proof. reflexivity. Qed.

Example validate_widgetSpec :
  validateSpecification "AXE" "1" exampleDir widgetSpec = Returns tt.
Proof. reflexivity. Qed.

Example parse_widget_first_time :
  fst (exampleParse (sourceOnly widgetText))
  = Returns (specificationValue widgetSpec).
Proof. vm_compute. reflexivity. Qed.

(** A schema whose capabilities interface has no member fails with parser
    error 5. *)
Example parse_no_capability :
  validateSpecification "AXE" "1" exampleDir
    (walkSourceFile
       [InterfaceDeclaration "McpOperations" operationMembers [];
        InterfaceDeclaration "WidgetType" widgetMembers [];
        InterfaceDeclaration "McpCapabilities" [] []])
  = Throws (ThrownAxe
              (mkAxeError "AXE-1005"
                 "MCP specification does not define any capabilities"
                 (Some [("path", JsString "/axe/schemas/mcp-spec/schema.ts")])
                 None)).
Proof. vm_compute. reflexivity. Qed.

(** A cache file that holds the JSON text [null] is newer than the source
    and is read, but [null] is not a value the entry point returns: the
    source is parsed. *)
Example null_cache_is_a_miss :
  cachedValue exampleDir (withCacheText widgetText 150 "null") = JsNull
  /\ fst (exampleParse (withCacheText widgetText 150 "null"))
     = Returns (specificationValue widgetSpec).
Proof. split; vm_compute; reflexivity. Qed.

(** So is a number too small for a double, which is read as zero; the
    smallest double is not. *)
Example underflow_is_a_miss :
  toBoolean (JsNumber "1e-400") = false
  /\ toBoolean (JsNumber "5e-324") = true
  /\ fst (exampleParse (withCacheText widgetText 150 "1e-400"))
     = Returns (specificationValue widgetSpec).
Proof. repeat split; vm_compute; reflexivity. Qed.

(** A cache file that holds a number is returned as the specification. *)
Example cached_number_is_returned :
  fst (exampleParse (withCacheText widgetText 150 "42"))
  = Returns (JsNumber "42").
Proof. vm_compute. reflexivity. Qed.

(** The keys of an object that is read come with the array indices
    first. *)
Example index_keys_come_first :
  Json.parse
    (Json.stringify
       (JsObject [("b", JsNull); ("10", JsNull); ("01", JsNull);
                  ("9", JsNull)]))
  = Some (JsObject [("9", JsNull); ("10", JsNull); ("b", JsNull);
                    ("01", JsNull)]).
Proof. vm_compute. reflexivity. Qed.

(** Numbers as [String] prints them. *)
Example numbers_as_printed :
  JsString.ofNumber 7 = "7"
  /\ JsString.ofNumber 9007199254740991 = "9007199254740991"
  /\ JsString.ofNumber (2 ^ 60) = "1152921504606847000"
  /\ JsString.ofNumber (10 ^ 21) = "1e+21"
  /\ JsString.ofNumber (2 ^ 70) = "1.1805916207174113e+21".
Proof. repeat split; vm_compute; reflexivity. Qed.

(** A specification with a comment that has an inline tag is returned with
    the node array for a description, and is not saved: the failure of
    [JSON.stringify] is a warning on the console. *)
Example linked_comment_is_not_cached :
  op_description (hd (mkMcpOperation "" (Text "") "" "" false)
                    (operations (walkSourceFile linkedSource)))
  = Nodes (JSDocText "Reads one widget, see ")
          [JSDocLink (Some "WidgetType") ""; JSDocText "."]
  /\ cacheSpecification exampleDir (walkSourceFile linkedSource)
       (sourceOnly widgetText)
     = (Returns tt, warned (sourceOnly widgetText) circularError).
Proof. split; reflexivity. Qed.

(** The operations of [noDeleteSource] miss [Delete] and nothing else. *)
Lemma noDelete_missesOnly tree :
  operations (walkSourceFile tree)
  = removelast (operations widgetSpec) ->
  missesOnly (walkSourceFile tree) "Delete".
Proof.
  intros H. unfold missesOnly, hasOperation. rewrite H.
  split; [| split].
  - simpl. do 4 right. left. reflexivity.
  - reflexivity.
  - intros x Hx Hne. simpl in Hx.
    repeat (destruct Hx as [<- | Hx]; [try reflexivity; congruence |]).
    contradiction.
Qed.

(** C1, refuted as stated: the schema [noDeleteNoTypeSource] misses exactly
    one required operation, [Delete], yet the error validation throws is
    number 3, about the missing types, and its message does not name
    [Delete]. *)
Lemma missing_operation_unnamed_without_types :
  ~ (forall spec r,
        missesOnly spec r ->
        exists e,
          validateSpecification "AXE" "1" exampleDir spec
          = Throws (ThrownAxe e)
          /\ String.index 0 r (message e) <> None).
Proof.
  intros H.
  destruct (H (walkSourceFile noDeleteNoTypeSource) "Delete")
    as (e & Hthrown & Hnamed).
  - apply noDelete_missesOnly. reflexivity.
  - vm_compute in Hthrown. injection Hthrown as <-.
    apply Hnamed. vm_compute. reflexivity.
Qed.

(** C1 at work: with a type, the error names [Delete]. *)
Lemma validation_checks_in_order_witness :
  types (walkSourceFile noDeleteSource) <> []
  /\ missesOnly (walkSourceFile noDeleteSource) "Delete"
  /\ validateSpecification "AXE" "1" exampleDir (walkSourceFile noDeleteSource)
     = Throws (ThrownAxe
                 (mkAxeError "AXE-1004"
                    "MCP specification is missing required operation: Delete"
                    (Some [("path",
                            JsString "/axe/schemas/mcp-spec/schema.ts")])
                    None)).
Proof.
  assert (Htypes : types (walkSourceFile noDeleteSource) <> [])
    by (vm_compute; discriminate).
  assert (Hmiss : missesOnly (walkSourceFile noDeleteSource) "Delete")
    by (apply noDelete_missesOnly; reflexivity).
  split; [exact Htypes |]. split; [exact Hmiss |].
  exact (proj2 (proj2 (proj2 (proj2 (proj2 (proj2
           (validation_checks_in_order "AXE" "1" exampleDir
              (walkSourceFile noDeleteSource)))))))
           "Delete" Htypes Hmiss).
Defined.

(** C2, refuted as stated: the cache file of the world below is strictly
    newer than the source, can be read and holds JSON text, yet the value
    it holds, [null], is not what [parseSpecification] returns: the source
    is parsed. *)
Lemma newer_cache_holding_null_is_passed_by :
  ~ (forall w c s v,
        files w (MCP_SPEC_CACHE_PATH exampleDir) = Some c ->
        files w (MCP_SPEC_PATH exampleDir) = Some s ->
        (mtime s < mtime c)%Z ->
        readError c = None ->
        Json.parse (content c) = Some v ->
        fst (exampleParse w) = Returns v).
Proof.
  intros H.
  specialize (H (withCacheText widgetText 150 "null")
                {| mtime := 150; content := "null"; readError := None |}
                (sourceFileOf widgetText) JsNull
                eq_refl eq_refl eq_refl eq_refl eq_refl).
  vm_compute in H. discriminate H.
Qed.

(** C2 at work: a cache file newer than the source is returned although the
    source is a stub that would not pass validation; a cache file as old
    as the source is passed by, and the stub fails validation. *)
Lemma cache_used_only_when_strictly_newer_witness :
  exampleParse (withCache "stub" 150)
  = (Returns (specificationValue widgetSpec), withCache "stub" 150)
  /\ fst (exampleParse (withCache "stub" 100))
     = Throws (ThrownAxe
                 (mkAxeError "AXE-1002"
                    "MCP specification does not define any operations"
                    (Some [("path",
                            JsString "/axe/schemas/mcp-spec/schema.ts")])
                    None)).
Proof.
  split.
  - refine (proj1 (proj2 (proj2
              (cache_used_only_when_strictly_newer "AXE" "1" exampleDir
                 exampleCompiler (withCache "stub" 150))))
              {| mtime := 150;
                 content := Json.stringify (specificationValue widgetSpec);
                 readError := None |}
              (sourceFileOf "stub") (specificationValue widgetSpec)
              _ _ _ _ _ _).
    + reflexivity.
    + reflexivity.
    + reflexivity.
    + reflexivity.
    + vm_compute. reflexivity.
    + reflexivity.
  - unfold exampleParse.
    rewrite (proj1 (proj2
               (cache_used_only_when_strictly_newer "AXE" "1" exampleDir
                  exampleCompiler (withCache "stub" 100)))
               {| mtime := 100;
                  content := Json.stringify (specificationValue widgetSpec);
                  readError := None |}
               (sourceFileOf "stub") eq_refl eq_refl).
    + vm_compute. reflexivity.
    + vm_compute. discriminate.
Defined.





(** C8 at work: on a read-only file system the specification is returned
    and the failure to save it is one warning on the console. *)
Lemma cache_failures_are_swallowed_witness :
  exampleParse (readOnly widgetText)
  = (Returns (specificationValue widgetSpec),
     warned (readOnly widgetText)
       {| errorMessage := "EROFS: read-only file system, open";
          errorCode := Some "EROFS" |}).
Proof.
  refine (proj2 (proj2 (proj2
            (cache_failures_are_swallowed "AXE" "1" exampleDir exampleCompiler
               (readOnly widgetText))))
            widgetSpec _ _ _ _).
  - reflexivity.
  - vm_compute. reflexivity.
  - reflexivity.
Defined.

(** C9 at work: the second run over [widgetText] is served from the cache
    the first run wrote, and returns what the first run returned. *)
Lemma parse_twice_same_value_witness :
  toBoolean
    (cachedValue exampleDir (snd (exampleParse (sourceOnly widgetText))))
  = true
  /\ fst (exampleParse (snd (exampleParse (sourceOnly widgetText))))
     = Returns (specificationValue widgetSpec).
Proof.
  split.
  - vm_compute. reflexivity.
  - refine (@parse_twice_same_value "AXE" "1" exampleDir exampleCompiler
              (sourceOnly widgetText) (specificationValue widgetSpec)
              (snd (exampleParse (sourceOnly widgetText))) _
              (snd (exampleParse (sourceOnly widgetText))) _ _).
    + vm_compute. reflexivity.
    + reflexivity.
    + reflexivity.
Defined.

(** C4 at work: the field [label: string | null] of [WidgetType]. *)
Lemma union_field_first_alternative_witness :
  exists f,
    parseFieldMember []
      (PropertySignature "label" None
         (Some (UnionTypeNode "string | null"
                  [keyword "string"; keyword "null"])) [])
    = [f]
    /\ field_type f = "string"
    /\ field_repeated f = false.
Proof.
  destruct (union_field_first_alternative [] "label" None "string | null"
              (keyword "string") [keyword "null"] [])
    as (f & Hpush & _ & _ & Hkeyword & _ & Hrepeated & _ & _).
  exists f. split; [exact Hpush |].
  split; [exact (Hkeyword "string" eq_refl) | exact Hrepeated].
Defined.



(** C6 at work: the member [tags?: Array<string>]. *)
Lemma repeated_field_witness :
  exists f,
    parseFieldMember []
      (PropertySignature "tags" (Some QuestionTokenNode)
         (Some (TypeReferenceNode "Array<string>" "Array"
                  (Some [keyword "string"]))) [])
    = [f]
    /\ field_repeated f = true
    /\ field_type f = "string".
Proof.
  destruct (repeated_field [] "tags" (Some QuestionTokenNode)
              (Some (TypeReferenceNode "Array<string>" "Array"
                       (Some [keyword "string"]))) [])
    as (f & Hpush & _ & _ & Harray & Hkeyword & _).
  exists f. split; [exact Hpush |].
  split.
  - exact (proj1 (Harray "Array<string>" (keyword "string") [] eq_refl)).
  - apply (Hkeyword "Array<string>" "string"). right. exists [].
    reflexivity.
Defined.

(** A function that throws the plain-object error it is given. *)
Definition rethrower : JsFunction unit AxeError unit :=
  {| call := fun e => throw (ThrownAxe e); name := "rethrower" |}.

(** An error creator in the manner of [createGeneratorError]. *)
Definition exampleCreator (code : N) (message : string)
    (details : option Details) (cause : option JsError) : AxeError :=
  createError "AXE" "3" code message details (option_map inl cause).

(** C10 at work: a thrown plain-object [AxeError] is wrapped, not
    rethrown. *)
Lemma withErrorHandling_cases_witness :
  withErrorHandling rethrower exampleCreator
    (mkAxeError "AXE-1002" "no operations" None None) tt
  = (Throws (ThrownAxe
               (mkAxeError "AXE-3999" "An unexpected error occurred"
                  (Some [("function", JsString "rethrower")])
                  (Some (inl (newError "[object Object]"))))),
     tt).
Proof.
  exact (proj1 (proj2 (proj2 (proj2
           (withErrorHandling_cases rethrower exampleCreator
              (mkAxeError "AXE-1002" "no operations" None None) tt)))
           (mkAxeError "AXE-1002" "no operations" None None) tt eq_refl)).
Defined.

(* ===================================================================== *)
(** ** The further theorems at work                                      *)
(* ===================================================================== *)

(** X1 at work: the number 4 in the code of a parser error. *)
Lemma createError_number_round_trip_witness :
  exists digits,
    Json.stripPrefix "AXE-1"
      (code (createError "AXE" "1" 4 "missing operation" None None))
    = Some digits
    /\ 3 <= String.length digits
    /\ readDigits digits = Some 4%N.
Proof.
  exact (proj1 (@createError_number_round_trip "AXE" "1" 4
                  "missing operation" None None eq_refl)).
Defined.

(** The error of a missing schema, as [parseSpecification] throws it. *)
Definition missingSchemaError : AxeError :=
  mkAxeError "AXE-1001" "Failed to parse MCP specification"
    (Some [("path", JsString "/axe/schemas/mcp-spec/schema.ts")])
    (Some (inl (enoent "open" "/axe/schemas/mcp-spec/schema.ts"))).

(** An error whose cause is [missingSchemaError]. *)
Definition generatorError : AxeError :=
  mkAxeError "AXE-3010" "Generation failed" None
    (Some (inr missingSchemaError)).

(** X2 at work: the text of [generatorError] ends with the text of the
    error of the file system, two causes down. *)
Lemma formatErrorForCli_ends_with_causes_witness :
  exists before,
    formatErrorForCli (inr generatorError)
    = (before ++ "Caused by: "
         ++ "ERROR ENOENT: ENOENT: no such file or directory, open "
         ++ "'/axe/schemas/mcp-spec/schema.ts'")%string.
Proof.
  destruct (@formatErrorForCli_ends_with_causes
              (inl (enoent "open" "/axe/schemas/mcp-spec/schema.ts"))
              (inr generatorError)
              (inCauseChain_cause generatorError eq_refl
                 (inCauseChain_cause missingSchemaError eq_refl
                    (inCauseChain_here _))))
    as [Heq | Hends].
  - discriminate Heq.
  - exact Hends.
Defined.

(** X3 at work: the error thrown through two wrappers keeps nothing of the
    error [rethrower] threw. *)
Lemma withErrorHandling_twice_hides_cause_witness :
  withErrorHandling (wrappedFunction rethrower exampleCreator) exampleCreator
    missingSchemaError tt
  = (Throws (ThrownAxe
               (mkAxeError "AXE-3999" "An unexpected error occurred"
                  (Some [("function", JsString "")])
                  (Some (inl (newError "[object Object]"))))),
     tt).
Proof.
  exact (@withErrorHandling_twice_hides_cause unit AxeError unit rethrower
           exampleCreator exampleCreator missingSchemaError tt tt
           (ThrownAxe missingSchemaError) eq_refl eq_refl).
Defined.

(** The operations of [widgetSpec] by name only: all optional, without
    description, with types that exist nowhere. *)
Definition namesOnlySpec : McpSpecification :=
  {| version := "";
     operations :=
       map (fun op =>
              mkMcpOperation (op_name op) (Text "") "Nowhere" "Nowhere" false)
           (operations widgetSpec);
     types := types widgetSpec;
     capabilities := capabilities widgetSpec |}.

(** X11 at work: [namesOnlySpec] is accepted as [widgetSpec] is. *)
Lemma validation_looks_at_names_only_witness :
  validateSpecification "AXE" "1" exampleDir namesOnlySpec = Returns tt.
Proof.
  rewrite <- (@validation_looks_at_names_only "AXE" "1" exampleDir
                widgetSpec namesOnlySpec).
  - reflexivity.
  - reflexivity.
  - split; intros H; discriminate H.
  - split; intros H; discriminate H.
Defined.

(** X13 at work: the cache written beside [widgetText] at time 200 is
    loaded, the source being of time 100. *)
Lemma save_then_load_witness :
  loadFromCache exampleDir
    (snd (cacheSpecification exampleDir widgetSpec (sourceOnly widgetText)))
  = (Returns (specificationValue widgetSpec),
     snd (cacheSpecification exampleDir widgetSpec (sourceOnly widgetText))).
Proof.
  refine (proj2 (@save_then_load exampleDir (sourceOnly widgetText) widgetSpec
                   (sourceFileOf widgetText) eq_refl eq_refl) _ _).
  - reflexivity.
  - intros c Hc. discriminate Hc.
Defined.

(** X16 at work: the first run over [widgetText]. *)
Lemma fresh_parse_returns_valid_specification_witness :
  exists spec,
    specificationValue widgetSpec = specificationValue spec
    /\ validateSpecification "AXE" "1" exampleDir spec = Returns tt
    /\ operations spec <> []
    /\ types spec <> []
    /\ (forall r, In r requiredOperations -> hasOperation spec r = true)
    /\ capabilities spec <> [].
Proof.
  refine (@fresh_parse_returns_valid_specification "AXE" "1" exampleDir
            exampleCompiler (sourceOnly widgetText)
            (specificationValue widgetSpec)
            (snd (exampleParse (sourceOnly widgetText))) _ _).
  - reflexivity.
  - vm_compute. reflexivity.
Defined.

(** X17 at work: after the first run over [widgetText] the cache file
    holds what the run returned. *)
Lemma cache_holds_what_was_returned_witness :
  exists c,
    files (snd (exampleParse (sourceOnly widgetText)))
      (MCP_SPEC_CACHE_PATH exampleDir) = Some c
    /\ content c = Json.stringify (specificationValue widgetSpec)
    /\ mtime c = 200%Z
    /\ Json.parse (content c) = Some (specificationValue widgetSpec).
Proof.
  destruct (@cache_holds_what_was_returned "AXE" "1" exampleDir
              exampleCompiler (sourceOnly widgetText)
              (specificationValue widgetSpec)
              (snd (exampleParse (sourceOnly widgetText))))
    as [Hsame | Hnew].
  - vm_compute. reflexivity.
  - vm_compute in Hsame. discriminate Hsame.
  - exact Hnew.
Defined.

(** X18 at work: what is shown when there is no schema. *)
Lemma parse_failure_as_shown_witness :
  exists e,
    fst (exampleParse emptyWorld) = Throws (ThrownAxe e)
    /\ JsString.startsWith (code e) "AXE-1" = true
    /\ formatErrorForCli (inr e)
       = ("ERROR " ++ code e ++ ": " ++ message e
            ++ newlineString ++ newlineString ++ "Details:"
            ++ newlineString ++ "  path: /axe/schemas/mcp-spec/schema.ts"
            ++ match cause e with
               | Some c =>
                   newlineString ++ newlineString ++ "Caused by: "
                     ++ formatErrorForCli c
               | None => ""
               end)%string.
Proof.
  destruct (@parse_failure_as_shown "AXE" "1" exampleDir exampleCompiler
              emptyWorld (ThrownAxe missingSchemaError) emptyWorld eq_refl)
    as (e & He & Hprefix & Hshown).
  exists e. split; [| split; [exact Hprefix | exact Hshown]].
  rewrite <- He. reflexivity.
Defined.
